(** * pymerkle: hashing engine and proof validation

    A shallow embedding of [pymerkle/hashing.py] and
    [pymerkle/validations/validations.py].

    Python values are modelled by the tagged union [pyval]; dictionaries
    with string keys are finite maps ([gmap string pyval]); [bytes] are
    lists of [Byte.byte]; [str] is [string], read as a sequence of code
    points below 256.  Exceptions are values of type [exn] and a computation
    that may raise has type [result A].  The Python standard library
    ([hashlib], the text codecs, [uuid], [time], the file system) and the
    modules of the package that the two files import are an interface
    ([Runtime], [Constants], [HashMachine]) that the functions take as a
    parameter. *)

From Stdlib Require Import ZArith Ascii String List Lia.
From stdpp Require Import gmap strings list fin_maps sorting.

Set Warnings "-register-all".
Set Default Proof Using "Type".

Local Open Scope string_scope.
Local Open Scope list_scope.

(** ** Exceptions and fallible computations *)

Inductive exn : Type :=
  | UnsupportedParameter (msg : string)
  | InvalidMerkleProof
  | KeyError (key : string)
  | IndexError (msg : string)
  | AttributeError (msg : string)
  | TypeError (msg : string)
  | LookupError (msg : string)
  | UnicodeEncodeError (msg : string)
  | JSONDecodeError (msg : string)
  | OSError (msg : string)
  | OtherError (msg : string).

Inductive result (A : Type) : Type :=
  | Ok (a : A)
  | Raise (e : exn).
Arguments Ok {A} a.
Arguments Raise {A} e.

Definition rbind {A B} (c : result A) (k : A -> result B) : result B :=
  match c with
  | Ok a => k a
  | Raise e => Raise e
  end.

Global Instance result_bind : MBind result := fun A B k c => rbind c k.
Global Instance result_ret : MRet result := fun A a => Ok a.

(** ** Python values *)

Abbreviation bytes := (list Byte.byte).

Global Instance byte_eq_dec : EqDecision Byte.byte.
Proof.
  intros x y. destruct (Byte.eqb x y) eqn:E.
  - left. now apply Byte.byte_dec_bl.
  - right. now apply Byte.eqb_false.
Defined.

Inductive pyval : Type :=
  | PNone
  | PBool (b : bool)
  | PInt (z : Z)
  | PStr (s : string)
  | PBytes (bs : bytes)
  | PList (l : list pyval)
  | PDict (d : gmap string pyval).

(** Truth value testing ([if x:], [not x], [while x:]). *)
Definition truthy (v : pyval) : bool :=
  match v with
  | PNone => false
  | PBool b => b
  | PInt z => negb (z =? 0)%Z
  | PStr s => negb (String.eqb s "")
  | PBytes bs => match bs with [] => false | _ => true end
  | PList l => match l with [] => false | _ => true end
  | PDict d => negb (bool_decide (d = ∅))
  end.

(** ** [str] methods used by the package *)

Definition chr (n : nat) : ascii := ascii_of_nat n.
Definition ord (c : ascii) : nat := nat_of_ascii c.

(** [str.lower] on one code point below 256: the ASCII capitals and the
    Latin-1 capitals U+00C0..U+00DE (U+00D7, the multiplication sign, is
    not a letter). *)
Definition lower_char (c : ascii) : ascii :=
  let n := ord c in
  if ((65 <=? n) && (n <=? 90))%nat then chr (n + 32)
  else if ((192 <=? n) && (n <=? 222) && negb (n =? 215))%nat then chr (n + 32)
  else c.

Fixpoint lower (s : string) : string :=
  match s with
  | EmptyString => EmptyString
  | String c s' => String (lower_char c) (lower s')
  end.

(** [s.replace(a, b)] for one-character [a] and [b]. *)
Fixpoint replace_char (a b : ascii) (s : string) : string :=
  match s with
  | EmptyString => EmptyString
  | String c s' => String (if Ascii.eqb c a then b else c) (replace_char a b s')
  end.

(** [repr] of a [str] without quotes or backslashes inside, as
    [KeyError.__str__] shows its key. *)
Definition repr_str (s : string) : string := "'" +:+ s +:+ "'".

(** ** Hexadecimal text of a digest *)

Definition hexdigit (n : N) : ascii :=
  match n with
  | 0 => "0" | 1 => "1" | 2 => "2" | 3 => "3" | 4 => "4" | 5 => "5"
  | 6 => "6" | 7 => "7" | 8 => "8" | 9 => "9" | 10 => "a" | 11 => "b"
  | 12 => "c" | 13 => "d" | 14 => "e" | _ => "f"
  end%N%char.

Fixpoint hexlify (bs : bytes) : string :=
  match bs with
  | [] => EmptyString
  | b :: bs' =>
      let n := Byte.to_N b in
      String (hexdigit (n / 16)) (String (hexdigit (n mod 16)) (hexlify bs'))
  end.

Fixpoint string_forall (p : ascii -> bool) (s : string) : bool :=
  match s with
  | EmptyString => true
  | String c s' => p c && string_forall p s'
  end.

Definition is_ascii_char (c : ascii) : bool := (ord c <? 128)%nat.

(** Text of code points below 128. *)
Definition is_ascii_text (s : string) : bool := string_forall is_ascii_char s.

(** The bytes with the values of the code points of a text. *)
Fixpoint bytes_of_string (s : string) : bytes :=
  match s with
  | EmptyString => []
  | String c s' => byte_of_ascii c :: bytes_of_string s'
  end.

Definition is_lower_hex (c : ascii) : bool :=
  let n := ord c in
  (((48 <=? n) && (n <=? 57)) || ((97 <=? n) && (n <=? 102)))%nat.

(** ** The interface of the Python runtime *)

(** A hash object of [hashlib]: [h_new] is the constructor, [h_update] is
    [update] and [h_digest] the raw digest; [hexdigest] is its lowercase
    hexadecimal text. *)
Record HashAlg : Type := {
  h_state : Type;
  h_new : h_state;
  h_update : h_state -> bytes -> h_state;
  h_digest : h_state -> bytes;
}.

Definition hexdigest (H : HashAlg) (st : h_state H) : string :=
  hexlify (h_digest H st).

(** The documented contract of [update]: repeated calls are equivalent to
    one call with the concatenation of the arguments. *)
Record HashAlgLaws (H : HashAlg) : Prop := {
  h_update_nil : forall st, h_update H st [] = st;
  h_update_app : forall st a b,
    h_update H (h_update H st a) b = h_update H st (a ++ b);
}.

Class Runtime : Type := {
  (** [getattr(hashlib, name)]: the constructor found under that attribute
      name, or the exception of the lookup or of the call. *)
  hashlib : string -> result HashAlg;
  (** [text.encode(encoding)]. *)
  str_encode : string -> string -> result bytes;
  (** [str(uuid.uuid1())] at the n-th call. *)
  uuid1_str : nat -> string;
  (** [int(time())] and [ctime()] at the n-th reading of the clock. *)
  time_int : nat -> Z;
  ctime : nat -> string;
  (** The exception, if any, with which [open(path, 'w')] fails. *)
  open_w_error : string -> option exn;
}.

(** A runtime whose hash objects keep the contract of [update]. *)
Class RuntimeLaws (RT : Runtime) : Prop := {
  hashlib_laws : forall name H, hashlib name = Ok H -> HashAlgLaws H;
}.

(** [pymerkle.constants], imported by [hashing.py]. *)
Class Constants : Type := {
  ALGORITHMS : list string;
  ENCODINGS : list string;
}.

(** ** hashing.py *)

Section Hashing.
Context {RT : Runtime} {CS : Constants}.

Record HashEngine : Type := {
  algorithm : string;
  encoding : string;
  security : bool;
  prefx00 : bytes;
  prefx01 : bytes;
}.

Definition normalize (provided : string) : string :=
  replace_char "-" "_" (lower provided).

(** One round of the loop of [validate_parameters]. *)
Definition validate_parameter (provided : string) (supported : list string)
  : result string :=
  let normalized := normalize provided in
  if bool_decide (normalized ∈ supported)
  then Ok normalized
  else Raise (UnsupportedParameter (provided +:+ " is not supported")).

Definition validate_parameters (algorithm encoding : string)
  : result (string * string) :=
  a ← validate_parameter algorithm ALGORITHMS;
  e ← validate_parameter encoding ENCODINGS;
  Ok (a, e).

(** [HashEngine.__init__].  The first component of the validated pair is
    bound to the name [algorith], which is not read again: the attribute
    [algorithm] keeps the argument as provided, [encoding] the normalized
    value. *)
Definition HashEngine_init (algorithm encoding : string) (security : bool)
  : result HashEngine :=
  '(algorith, encoding) ← validate_parameters algorithm encoding;
  prefx00 ← (if security then str_encode encoding (String (chr 0) "")
              else Ok []);
  prefx01 ← (if security then str_encode encoding (String (chr 1) "")
              else Ok []);
  Ok {| algorithm := algorithm; encoding := encoding; security := security;
        prefx00 := prefx00; prefx01 := prefx01 |}.

Definition chunksize : nat := 1024.

(** [buffer[lo: hi]] for non-negative bounds. *)
Definition slice (buffer : bytes) (lo hi : nat) : bytes :=
  take (hi - lo) (drop lo buffer).

(** The [while chunk:] loop of [consume]; [None] when the fuel runs out. *)
Fixpoint consume_loop (fuel : nat) (H : HashAlg) (hasher : h_state H)
    (buffer : bytes) (offset : nat) (chunk : bytes) : option (h_state H) :=
  match chunk with
  | [] => Some hasher
  | _ :: _ =>
      match fuel with
      | 0 => None
      | S fuel' =>
          let hasher := h_update H hasher chunk in
          let offset := offset + chunksize in
          consume_loop fuel' H hasher buffer offset
            (slice buffer offset (offset + chunksize))
      end
  end.

Definition consume_fuel (buffer : bytes) : nat := S (length buffer).

Definition consume (self : HashEngine) (buffer : bytes) : result bytes :=
  H ← hashlib (algorithm self);
  let offset := 0 in
  let chunk := slice buffer offset chunksize in
  match consume_loop (consume_fuel buffer) H (h_new H) buffer offset chunk with
  | None => Raise (OtherError "consume: loop did not finish")
  | Some hasher =>
      let checksum := hexdigest H hasher in
      str_encode (encoding self) checksum
  end.

(** The first statement of [hash_entry]: [data] is [bytes] or [str]; any
    other value has no [encode] method. *)
Definition entry_bytes (self : HashEngine) (data : pyval) : result bytes :=
  match data with
  | PBytes b => Ok b
  | PStr s => str_encode (encoding self) s
  | _ => Raise (AttributeError "object has no attribute 'encode'")
  end.

Definition hash_entry (self : HashEngine) (data : pyval) : result bytes :=
  data ← entry_bytes self data;
  let buffer := prefx00 self ++ data in
  consume self buffer.

Definition hash_pair (self : HashEngine) (left right : bytes) : result bytes :=
  let buffer := prefx01 self ++ left ++ prefx01 self ++ right in
  consume self buffer.

(** The digest of a whole buffer in one call of [update], then the
    lowercase hexadecimal text encoded with the engine's encoding: what
    the specification calls hashing in one shot. *)
Definition digest_oneshot (self : HashEngine) (buffer : bytes) : result bytes :=
  H ← hashlib (algorithm self);
  str_encode (encoding self) (hexdigest H (h_update H (h_new H) buffer)).

End Hashing.

(** The chunks that the loop of [consume] passes to [update], in order. *)
Fixpoint chunks_of (fuel : nat) (buffer : bytes) : list bytes :=
  match fuel, buffer with
  | S fuel', _ :: _ =>
      take chunksize buffer :: chunks_of fuel' (drop chunksize buffer)
  | _, _ => []
  end.

Definition chunks (buffer : bytes) : list bytes :=
  chunks_of (length buffer) buffer.

(** The buffer that [hash_pair] digests. *)
Definition pair_buffer {RT : Runtime} (self : HashEngine) (left right : bytes)
  : bytes :=
  prefx01 self ++ left ++ prefx01 self ++ right.

(** A byte that is a digit of lowercase hexadecimal text. *)
Definition is_hex_byte (b : Byte.byte) : bool :=
  is_lower_hex (ascii_of_byte b).

(** ** Dictionaries and subscripting *)

(** [d[k]]; the [KeyError] carries the key. *)
Definition getitem (d : gmap string pyval) (k : string) : result pyval :=
  match d !! k with
  | Some v => Ok v
  | None => Raise (KeyError k)
  end.

(** [v[k]] for a string [k]. *)
Definition subscript (v : pyval) (k : string) : result pyval :=
  match v with
  | PDict d => getitem d k
  | PNone | PBool _ | PInt _ => Raise (TypeError "object is not subscriptable")
  | PStr _ | PBytes _ | PList _ =>
      Raise (TypeError "indices must be integers or slices, not str")
  end.

(** [d.get(k)], with the default [None]. *)
Definition dict_get (d : gmap string pyval) (k : string) : pyval :=
  default PNone (d !! k).

(** ** json: the encoder, [sort_keys=True, indent=4] *)

Definition digit_char (n : N) : ascii := chr (48 + N.to_nat n).

(** Decimal digits of [n], most significant first, in front of [acc]. *)
Fixpoint digits_of (fuel : nat) (n : N) (acc : string) : string :=
  match fuel with
  | 0 => acc
  | S fuel' =>
      let acc' := String (digit_char (n mod 10)) acc in
      if (n <? 10)%N then acc' else digits_of fuel' (n / 10) acc'
  end.

Definition string_of_N (n : N) : string := digits_of (S (N.to_nat (N.log2 n))) n "".

(** [int.__repr__]. *)
Definition string_of_Z (z : Z) : string :=
  match z with
  | Z0 => "0"
  | Zpos p => string_of_N (Npos p)
  | Zneg p => String "-" (string_of_N (Npos p))
  end.

Definition hex4 (n : N) : string :=
  String (hexdigit (n / 4096)) (String (hexdigit (n / 256 mod 16))
    (String (hexdigit (n / 16 mod 16)) (String (hexdigit (n mod 16)) ""))).

(** One character of [json.encoder.encode_basestring_ascii]: the short
    escapes, and [\uXXXX] for every character outside [' '..'~']. *)
Definition json_escape_char (c : ascii) : string :=
  let n := ord c in
  if (n =? 34)%nat then "\" +:+ String (chr 34) ""
  else if (n =? 92)%nat then "\\"
  else if (n =? 10)%nat then "\n"
  else if (n =? 13)%nat then "\r"
  else if (n =? 9)%nat then "\t"
  else if (n =? 12)%nat then "\f"
  else if (n =? 8)%nat then "\b"
  else if ((32 <=? n) && (n <=? 126))%nat then String c ""
  else "\u" +:+ hex4 (N.of_nat n).

Fixpoint json_escape (s : string) : string :=
  match s with
  | EmptyString => EmptyString
  | String c s' => json_escape_char c +:+ json_escape s'
  end.

Definition dquote : string := String (chr 34) "".

Definition json_encode_str (s : string) : string :=
  dquote +:+ json_escape s +:+ dquote.

Definition key_le {A} (x y : string * A) : Prop := String.leb x.1 y.1 = true.
Global Instance key_le_dec {A} (x y : string * A) : Decision (key_le x y).
Proof. unfold key_le. apply _. Defined.

(** [sorted(dct.items())] over string keys. *)
Definition sorted_items {A} (d : gmap string A) : list (string * A) :=
  merge_sort key_le (map_to_list d).

Fixpoint spaces (n : nat) : string :=
  match n with
  | 0 => EmptyString
  | S n' => String " " (spaces n')
  end.

(** The separator in front of an item at nesting depth [lvl]. *)
Definition newline_indent (lvl : nat) : string :=
  String (chr 10) (spaces (4 * lvl)).

Definition json_item (kv : string * string) : string :=
  json_encode_str kv.1 +:+ ": " +:+ kv.2.

(** What the encoder accepts: no [bytes] anywhere. *)
Fixpoint json_serializable (v : pyval) : bool :=
  match v with
  | PBytes _ => false
  | PList l => forallb json_serializable l
  | PDict d => map_fold (fun _ x acc => json_serializable x && acc) true d
  | _ => true
  end.

Fixpoint json_encode (lvl : nat) (v : pyval) : string :=
  match v with
  | PNone => "null"
  | PBool true => "true"
  | PBool false => "false"
  | PInt z => string_of_Z z
  | PStr s => json_encode_str s
  | PBytes _ => ""
  | PList l =>
      match l with
      | [] => "[]"
      | _ =>
          "[" +:+ newline_indent (S lvl)
          +:+ String.concat ("," +:+ newline_indent (S lvl))
                (map (json_encode (S lvl)) l)
          +:+ newline_indent lvl +:+ "]"
      end
  | PDict d =>
      match sorted_items (json_encode (S lvl) <$> d) with
      | [] => "{}"
      | items =>
          "{" +:+ newline_indent (S lvl)
          +:+ String.concat ("," +:+ newline_indent (S lvl))
                (map json_item items)
          +:+ newline_indent lvl +:+ "}"
      end
  end.

(** [json.dumps(v, sort_keys=True, indent=4)]. *)
Definition json_dumps (v : pyval) : result string :=
  if json_serializable v then Ok (json_encode 0 v)
  else Raise (TypeError "Object of type bytes is not JSON serializable").

(** ** json: the decoder *)

Definition is_ws (c : ascii) : bool :=
  let n := ord c in
  ((n =? 32) || (n =? 9) || (n =? 10) || (n =? 13))%nat.

Fixpoint skip_ws (s : string) : string :=
  match s with
  | EmptyString => EmptyString
  | String c s' => if is_ws c then skip_ws s' else s
  end.

Definition is_digit (c : ascii) : bool :=
  let n := ord c in ((48 <=? n) && (n <=? 57))%nat.

Definition digit_val (c : ascii) : N := N.of_nat (ord c - 48).

Definition hex_val (c : ascii) : option N :=
  let n := ord c in
  if ((48 <=? n) && (n <=? 57))%nat then Some (N.of_nat (n - 48))
  else if ((97 <=? n) && (n <=? 102))%nat then Some (N.of_nat (n - 87))
  else if ((65 <=? n) && (n <=? 70))%nat then Some (N.of_nat (n - 55))
  else None.

(** The character a backslash escape stands for. *)
Definition json_unescape (e : ascii) : option ascii :=
  let n := ord e in
  if (n =? 34)%nat then Some (chr 34)
  else if (n =? 92)%nat then Some (chr 92)
  else if (n =? 47)%nat then Some (chr 47)
  else if (n =? 98)%nat then Some (chr 8)
  else if (n =? 102)%nat then Some (chr 12)
  else if (n =? 110)%nat then Some (chr 10)
  else if (n =? 114)%nat then Some (chr 13)
  else if (n =? 116)%nat then Some (chr 9)
  else None.

(** [scanstring], from the character after the opening quote: the decoded
    text and the input after the closing quote. *)
Fixpoint scan_string (s : string) : result (string * string) :=
  match s with
  | EmptyString => Raise (JSONDecodeError "Unterminated string")
  | String c s1 =>
      if (ord c =? 34)%nat then Ok (EmptyString, s1)
      else if (ord c =? 92)%nat then
        match s1 with
        | EmptyString => Raise (JSONDecodeError "Unterminated string")
        | String e s2 =>
            if (ord e =? 117)%nat then
              match s2 with
              | String h1 (String h2 (String h3 (String h4 s3))) =>
                  match hex_val h1, hex_val h2, hex_val h3, hex_val h4 with
                  | Some a, Some b, Some c', Some d =>
                      let n := (a * 4096 + b * 256 + c' * 16 + d)%N in
                      if (n <? 256)%N then
                        '(r, rest) ← scan_string s3;
                        Ok (String (chr (N.to_nat n)) r, rest)
                      else Raise (OtherError "code point above U+00FF")
                  | _, _, _, _ =>
                      Raise (JSONDecodeError "Invalid \uXXXX escape")
                  end
              | _ => Raise (JSONDecodeError "Invalid \uXXXX escape")
              end
            else
              match json_unescape e with
              | Some ch =>
                  '(r, rest) ← scan_string s2;
                  Ok (String ch r, rest)
              | None => Raise (JSONDecodeError "Invalid \escape")
              end
        end
      else if (ord c <? 32)%nat then
        Raise (JSONDecodeError "Invalid control character")
      else
        '(r, rest) ← scan_string s1;
        Ok (String c r, rest)
  end.

(** The longest run of decimal digits in front of [s], added to [acc]. *)
Fixpoint scan_digits (s : string) (acc : N) : N * string :=
  match s with
  | EmptyString => (acc, s)
  | String c s' =>
      if is_digit c then scan_digits s' (acc * 10 + digit_val c)%N
      else (acc, s)
  end.

(** Whether a fraction or an exponent follows the integer part. *)
Definition float_tail (s : string) : bool :=
  match s with
  | String c (String d s') =>
      if (ord c =? 46)%nat then is_digit d
      else if ((ord c =? 101) || (ord c =? 69))%nat then
        if is_digit d then true
        else if ((ord d =? 43) || (ord d =? 45))%nat then
          match s' with String d' _ => is_digit d' | _ => false end
        else false
      else false
  | _ => false
  end.

(** The integer part of a number: [0], or a digit from 1 to 9 followed by
    digits. *)
Definition scan_natural (s : string) : result (N * string) :=
  match s with
  | String c s' =>
      if (ord c =? 48)%nat then Ok (0%N, s')
      else if is_digit c then Ok (scan_digits s 0)
      else Raise (JSONDecodeError "Expecting value")
  | EmptyString => Raise (JSONDecodeError "Expecting value")
  end.

Definition scan_number (s : string) : result (pyval * string) :=
  let '(neg, s1) :=
    match s with
    | String c s' => if (ord c =? 45)%nat then (true, s') else (false, s)
    | EmptyString => (false, s)
    end in
  '(n, rest) ← scan_natural s1;
  if float_tail rest then Raise (OtherError "float")
  else Ok (PInt (if neg then - Z.of_N n else Z.of_N n), rest).

(** [s[idx:idx+len(p)] == p], with the rest of the input. *)
Fixpoint strip_prefix (p s : string) : option string :=
  match p, s with
  | EmptyString, _ => Some s
  | String a p', String b s' => if Ascii.eqb a b then strip_prefix p' s' else None
  | String _ _, EmptyString => None
  end.

(** The constants [null], [true], [false]; [NaN] and the infinities are
    floating-point values, which the model leaves out. *)
Definition scan_literal (s : string) : option (result (pyval * string)) :=
  match strip_prefix "null" s with
  | Some rest => Some (Ok (PNone, rest))
  | None =>
  match strip_prefix "true" s with
  | Some rest => Some (Ok (PBool true, rest))
  | None =>
  match strip_prefix "false" s with
  | Some rest => Some (Ok (PBool false, rest))
  | None =>
      if String.prefix "NaN" s || String.prefix "Infinity" s
         || String.prefix "-Infinity" s
      then Some (Raise (OtherError "float"))
      else None
  end end end.

Definition expect (c : nat) (msg : string) (s : string) : result string :=
  match s with
  | String c' s' => if (ord c' =? c)%nat then Ok s' else Raise (JSONDecodeError msg)
  | EmptyString => Raise (JSONDecodeError msg)
  end.

Definition out_of_fuel {A} : result A := Raise (OtherError "decoder: out of fuel").

(** [scan_once], [JSONObject] and [JSONArray]; the fuel bounds the number
    of calls and [json_loads] gives more than the length of the text. *)
Fixpoint parse_value (fuel : nat) (s : string) : result (pyval * string) :=
  match fuel with
  | 0 => out_of_fuel
  | S fuel' =>
      match s with
      | EmptyString => Raise (JSONDecodeError "Expecting value")
      | String c s' =>
          let n := ord c in
          if (n =? 34)%nat then
            '(x, rest) ← scan_string s'; Ok (PStr x, rest)
          else if (n =? 123)%nat then
            match skip_ws s' with
            | String c1 s1 =>
                if (ord c1 =? 125)%nat then Ok (PDict ∅, s1)
                else if (ord c1 =? 34)%nat then parse_members fuel' s1 ∅
                else Raise (JSONDecodeError "Expecting property name")
            | EmptyString => Raise (JSONDecodeError "Expecting property name")
            end
          else if (n =? 91)%nat then
            match skip_ws s' with
            | String c1 s1 =>
                if (ord c1 =? 93)%nat then Ok (PList [], s1)
                else parse_elements fuel' (String c1 s1) []
            | EmptyString => Raise (JSONDecodeError "Expecting value")
            end
          else match scan_literal s with
               | Some r => r
               | None => scan_number s
               end
      end
  end
with parse_members (fuel : nat) (s : string) (pairs : gmap string pyval)
  : result (pyval * string) :=
  match fuel with
  | 0 => out_of_fuel
  | S fuel' =>
      '(key, s1) ← scan_string s;
      s2 ← expect 58 "Expecting ':' delimiter" (skip_ws s1);
      '(value, s3) ← parse_value fuel' (skip_ws s2);
      let pairs := <[key := value]> pairs in
      match skip_ws s3 with
      | String c s4 =>
          if (ord c =? 125)%nat then Ok (PDict pairs, s4)
          else if (ord c =? 44)%nat then
            s5 ← expect 34 "Expecting property name" (skip_ws s4);
            parse_members fuel' s5 pairs
          else Raise (JSONDecodeError "Expecting ',' delimiter")
      | EmptyString => Raise (JSONDecodeError "Expecting ',' delimiter")
      end
  end
with parse_elements (fuel : nat) (s : string) (values : list pyval)
  : result (pyval * string) :=
  match fuel with
  | 0 => out_of_fuel
  | S fuel' =>
      '(value, s1) ← parse_value fuel' s;
      let values := values ++ [value] in
      match skip_ws s1 with
      | String c s2 =>
          if (ord c =? 93)%nat then Ok (PList values, s2)
          else if (ord c =? 44)%nat then parse_elements fuel' (skip_ws s2) values
          else Raise (JSONDecodeError "Expecting ',' delimiter")
      | EmptyString => Raise (JSONDecodeError "Expecting ',' delimiter")
      end
  end.

(** [json.loads(s)]. *)
Definition json_loads (s : string) : result pyval :=
  '(v, rest) ← parse_value (S (String.length s)) (skip_ws s);
  match skip_ws rest with
  | EmptyString => Ok v
  | _ => Raise (JSONDecodeError "Extra data")
  end.

(** ** json: the shape of the encoder's output *)

(** A value in the encoder's output is followed by a comma, by a line
    break, or by nothing. *)
Definition delimited (rest : string) : Prop :=
  match rest with
  | EmptyString => True
  | String c _ => ord c = 44 \/ ord c = 10
  end.

(** An encoded value starts with a character that is neither white space
    nor a closing bracket. *)
Definition value_head (c : ascii) : bool :=
  negb (is_ws c) && negb (ord c =? 93)%nat.

(** The items of an array and what follows them, from the first item on. *)
Fixpoint enc_elements (lvl : nat) (l : list pyval) (tail : string) : string :=
  match l with
  | [] => tail
  | x :: l' =>
      json_encode (S lvl) x
      +:+ match l' with
          | [] => newline_indent lvl +:+ "]" +:+ tail
          | _ :: _ => "," +:+ newline_indent (S lvl) +:+ enc_elements lvl l' tail
          end
  end.

(** What the induction gives for a value nested one level down. *)
Definition decodes (lvl : nat) (x : pyval) : Prop :=
  json_serializable x = true
  /\ forall tail fuel,
       String.length (json_encode lvl x) <= fuel ->
       delimited tail ->
       parse_value fuel (json_encode lvl x +:+ tail) = Ok (x, tail).

(** The items of an object and what follows them, from the character
    after the opening quote of the first key on. *)
Fixpoint enc_members (lvl : nat) (L : list (string * pyval)) (tail : string)
  : string :=
  match L with
  | [] => tail
  | kv :: L' =>
      json_escape kv.1 +:+ dquote +:+ ": " +:+ json_encode (S lvl) kv.2
      +:+ match L' with
          | [] => newline_indent lvl +:+ "}" +:+ tail
          | _ :: _ =>
              "," +:+ newline_indent (S lvl) +:+ dquote
              +:+ enc_members lvl L' tail
          end
  end.

(** ** The collaborators of validations.py *)

(** A Merkle-proof ([pymerkle.proof.Proof]), as far as the validator reads
    and writes it: two dictionaries. *)
Record Proof : Type := {
  proof_header : gmap string pyval;
  proof_body : gmap string pyval;
}.

(** [pymerkle.hashing.HashMachine], the base class of [Validator], and
    [Proof.get_validation_params]: neither is defined in the two files.
    [HashMachine_init] takes the keyword arguments [hash_type], [encoding],
    [raw_bytes] and [security] in this order. *)
Class HashMachine : Type := {
  machine : Type;
  HashMachine_init : pyval -> pyval -> pyval -> pyval -> result machine;
  multi_hash : machine -> pyval -> pyval -> result bytes;
  get_validation_params : Proof -> result (gmap string pyval);
}.

(** What the functions read from and write to outside their arguments:
    the number of uuids drawn, the number of clock readings, the files. *)
Record World : Type := {
  uuid_calls : nat;
  clock_reads : nat;
  files : gmap string string;
}.

(** [os.path.join(a, b)] on a POSIX system. *)
Definition os_path_join (a b : string) : string :=
  if String.prefix "/" b then b
  else if String.eqb a "" || String.prefix "/" (String.rev a) then a +:+ b
  else a +:+ "/" +:+ b.

(** [str(v)], as ['%s' % v] formats it; [None] where the model does not
    give the text (bytes and containers). *)
Definition py_str (v : pyval) : option string :=
  match v with
  | PNone => Some "None"
  | PBool true => Some "True"
  | PBool false => Some "False"
  | PInt z => Some (string_of_Z z)
  | PStr s => Some s
  | PBytes _ | PList _ | PDict _ => None
  end.

(** ** validations.py *)

Section Validations.
Context {RT : Runtime} {HM : HashMachine}.

(** [str(e)] of a [KeyError]: the [repr] of its argument. *)
Definition missing_parameter (key : string) : string :=
  "Hash-machine could not be configured: missing parameter: " +:+ repr_str key.

(** [Validator.__init__]: the four lookups in the [try] block, the
    [except KeyError] clause, then the constructor of the base class. *)
Definition Validator_init (config : gmap string pyval) : result machine :=
  let lookups :=
    hash_type ← getitem config "hash_type";
    encoding ← getitem config "encoding";
    raw_bytes ← getitem config "raw_bytes";
    security ← getitem config "security";
    Ok (hash_type, encoding, raw_bytes, security) in
  match lookups with
  | Raise (KeyError e) => Raise (KeyError (missing_parameter e))
  | Raise e => Raise e
  | Ok (hash_type, encoding, raw_bytes, security) =>
      HashMachine_init hash_type encoding raw_bytes security
  end.

(** [Validator.run]. *)
Definition run (self : machine) (target : bytes) (proof : Proof) : result unit :=
  generation ← getitem (proof_header proof) "generation";
  if negb (truthy generation) then Raise InvalidMerkleProof
  else
    signed_hashes ← getitem (proof_body proof) "proof_path";
    start ← getitem (proof_body proof) "proof_index";
    root ← multi_hash self signed_hashes start;
    if bool_decide (target ≠ root) then Raise InvalidMerkleProof
    else Ok tt.

Definition set_status (proof : Proof) (status : bool) : Proof :=
  {| proof_header := <["status" := PBool status]> (proof_header proof);
     proof_body := proof_body proof |}.

(** [validateProof]: the result and the proof after the assignment to
    [proof.header['status']]. *)
Definition validateProof (target : bytes) (proof : Proof)
  : result (bool * Proof) :=
  config ← get_validation_params proof;
  validator ← Validator_init config;
  result ← match run validator target proof with
            | Raise InvalidMerkleProof => Ok false
            | Raise e => Raise e
            | Ok _ => Ok true
            end;
  Ok (result, set_status proof result).

Record Receipt : Type := {
  header : pyval;
  body : pyval;
}.

(** The header of a receipt that is not a replica: a new uuid and two
    readings of the clock. *)
Definition fresh_header (w : World) : pyval * World :=
  (PDict (<["uuid" := PStr (uuid1_str (uuid_calls w))]>
         (<["timestamp" := PInt (time_int (clock_reads w))]>
         (<["validation_moment" := PStr (ctime (S (clock_reads w)))]> ∅))),
   {| uuid_calls := S (uuid_calls w);
      clock_reads := S (S (clock_reads w));
      files := files w |}).

Definition receipt_body (proof_uuid proof_provider result : pyval) : pyval :=
  PDict (<["proof_uuid" := proof_uuid]>
        (<["proof_provider" := proof_provider]>
        (<["result" := result]> ∅))).

Definition arg (args : list pyval) (i : nat) : result pyval :=
  match args !! i with
  | Some v => Ok v
  | None => Raise (IndexError "tuple index out of range")
  end.

(** [Receipt.__init__(self, *args, **kwargs)]. *)
Definition Receipt_init (args : list pyval) (kwargs : gmap string pyval)
    (w : World) : result (Receipt * World) :=
  match args with
  | _ :: _ =>
      let '(header, w) := fresh_header w in
      proof_uuid ← arg args 0;
      proof_provider ← arg args 1;
      result ← arg args 2;
      Ok ({| header := header;
             body := receipt_body proof_uuid proof_provider result |}, w)
  | [] =>
      if truthy (dict_get kwargs "from_dict") then
        from_dict ← getitem kwargs "from_dict";
        header ← subscript from_dict "header";
        body ← subscript from_dict "body";
        Ok ({| header := header; body := body |}, w)
      else if truthy (dict_get kwargs "from_json") then
        from_json ← getitem kwargs "from_json";
        _dict ← match from_json with
                 | PStr text => json_loads text
                 | _ => Raise (TypeError "the JSON object must be str")
                 end;
        header ← subscript _dict "header";
        body ← subscript _dict "body";
        Ok ({| header := header; body := body |}, w)
      else
        let '(header, w) := fresh_header w in
        proof_uuid ← getitem kwargs "proof_uuid";
        proof_provider ← getitem kwargs "proof_provider";
        result ← getitem kwargs "result";
        Ok ({| header := header;
               body := receipt_body proof_uuid proof_provider result |}, w)
  end.

(** Modelled from the spec: [pymerkle.serializers.ReceiptSerializer] is
    missing.  Its [default] gives the JSON-compatible mapping of the receipt
    file format: [header] with [uuid], [timestamp] and [validation_moment],
    [body] with [proof_uuid], [proof_provider] and [result]. *)
Definition ReceiptSerializer_default (obj : Receipt) : result pyval :=
  uuid ← subscript (header obj) "uuid";
  timestamp ← subscript (header obj) "timestamp";
  validation_moment ← subscript (header obj) "validation_moment";
  proof_uuid ← subscript (body obj) "proof_uuid";
  proof_provider ← subscript (body obj) "proof_provider";
  result ← subscript (body obj) "result";
  Ok (PDict (<["header" :=
               PDict (<["uuid" := uuid]>
                     (<["timestamp" := timestamp]>
                     (<["validation_moment" := validation_moment]> ∅)))]>
            (<["body" := receipt_body proof_uuid proof_provider result]> ∅))).

(** [Receipt.serialize]. *)
Definition serialize (self : Receipt) : result pyval :=
  ReceiptSerializer_default self.

(** [Receipt.toJsonString]: the encoder calls [default] on the receipt and
    encodes the mapping it returns. *)
Definition toJsonString (self : Receipt) : result string :=
  d ← ReceiptSerializer_default self;
  json_dumps d.

(** [open(path, 'w')] followed by [json.dump(obj, file, sort_keys=True,
    indent=4)] and the end of the [with] block.  The file is created, or
    emptied, when it is opened. *)
Definition write_json (path : string) (obj : result pyval) (w : World)
  : result World :=
  match open_w_error path with
  | Some e => Raise e
  | None =>
      obj ← obj;
      text ← json_dumps obj;
      Ok {| uuid_calls := uuid_calls w; clock_reads := clock_reads w;
            files := <[path := text]> (files w) |}
  end.

(** [validationReceipt(target, proof, dirpath=None)]. *)
Definition validationReceipt (target : bytes) (proof : Proof) (dirpath : pyval)
    (w : World) : result (Receipt * Proof * World) :=
  '(result, proof) ← validateProof target proof;
  let proof_hdr := proof_header proof in
  proof_uuid ← getitem proof_hdr "uuid";
  proof_provider ← getitem proof_hdr "provider";
  '(receipt, w) ← Receipt_init []
      (<["proof_uuid" := proof_uuid]>
      (<["proof_provider" := proof_provider]>
      (<["result" := PBool result]> ∅))) w;
  if truthy dirpath then
    uuid ← subscript (header receipt) "uuid";
    name ← match py_str uuid with
            | Some s => Ok (s +:+ ".json")
            | None => Raise (OtherError "str() of a container")
            end;
    path ← match dirpath with
            | PStr d => Ok (os_path_join d name)
            | _ => Raise (TypeError "expected str, bytes or os.PathLike object")
            end;
    w ← write_json path (serialize receipt) w;
    Ok (receipt, proof, w)
  else Ok (receipt, proof, w).

End Validations.

(** The keys that [Validator.__init__] reads, in the order of the reads. *)
Definition required_keys : list string :=
  ["hash_type"; "encoding"; "raw_bytes"; "security"].

(** The first of the required keys that a configuration lacks. *)
Definition first_missing (config : gmap string pyval) : option string :=
  List.find (fun k => match config !! k with None => true | Some _ => false end)
    required_keys.

(** The two dictionaries of the receipt format. *)
Definition receipt_header (uuid timestamp validation_moment : pyval) : pyval :=
  PDict (<["uuid" := uuid]>
        (<["timestamp" := timestamp]>
        (<["validation_moment" := validation_moment]> ∅))).

(** The mapping that the serializer gives for a receipt. *)
Definition receipt_document (r : Receipt) : pyval :=
  PDict (<["header" := header r]> (<["body" := body r]> ∅)).

(** The template of [Receipt.__repr__] with its fields filled in.  Each
    line of the literal ends with a backslash, so the sixteen spaces that
    indent the next line of the source are part of the text. *)
Definition repr_text (uuid timestamp validation_moment proof_uuid
    proof_provider result : string) : string :=
  let nl := String (chr 10) "" in
  let gap := spaces 16 in
  nl +:+ "    ----------------------------- VALIDATION RECEIPT -----------------------------" +:+ gap
  +:+ nl +:+ gap
  +:+ nl +:+ "    uuid           : " +:+ uuid +:+ gap
  +:+ nl +:+ gap
  +:+ nl +:+ "    timestamp      : " +:+ timestamp
      +:+ " (" +:+ validation_moment +:+ ")" +:+ gap
  +:+ nl +:+ gap
  +:+ nl +:+ "    proof-uuid     : " +:+ proof_uuid +:+ gap
  +:+ nl +:+ "    proof-provider : " +:+ proof_provider +:+ gap
  +:+ nl +:+ gap
  +:+ nl +:+ "    result         : " +:+ result +:+ gap
  +:+ nl +:+ gap
  +:+ nl +:+ "    ------------------------------- END OF RECEIPT -------------------------------" +:+ gap
  +:+ nl.

(** [str(v)] for a field of the template; the model does not give the
    text of bytes and of containers, and stops there. *)
Definition format_field (v : pyval) : result string :=
  match py_str v with
  | Some s => Ok s
  | None => Raise (OtherError "str() of a container")
  end.

(** [Receipt.__repr__]: the six lookups, in the order of the keyword
    arguments of [format], then the formatting. *)
Definition Receipt_repr (self : Receipt) : result string :=
  uuid ← subscript (header self) "uuid";
  timestamp ← subscript (header self) "timestamp";
  validation_moment ← subscript (header self) "validation_moment";
  proof_uuid ← subscript (body self) "proof_uuid";
  proof_provider ← subscript (body self) "proof_provider";
  result ← subscript (body self) "result";
  let result := if truthy result then "VALID" else "NON VALID" in
  uuid ← format_field uuid;
  timestamp ← format_field timestamp;
  validation_moment ← format_field validation_moment;
  proof_uuid ← format_field proof_uuid;
  proof_provider ← format_field proof_provider;
  Ok (repr_text uuid timestamp validation_moment proof_uuid proof_provider
        result).

(** ** A runtime to run the functions on: SHA-256 and a few codecs *)

Module Sha256.

Local Open Scope Z_scope.

(** The first 64 primes. *)
Definition is_prime (n : nat) : bool :=
  forallb (fun d => negb (n mod d =? 0)%nat) (seq 2 (n - 2)).
Definition primes : list Z :=
  map Z.of_nat (filter (fun n => is_prime n = true) (seq 2 310)).

(** The largest [r] below [2 ^ 36] with [r ^ 3 <= n]. *)
Definition cube_root (n : Z) : Z :=
  fold_left (fun r bit => let r' := r + 2 ^ Z.of_nat bit in
                          if r' * r' * r' <=? n then r' else r)
    (rev (seq 0 36)) 0.

(** The round constants: the first 32 bits of the fractional parts of the
    cube roots of the first 64 primes; the initial hash value: those of
    the square roots of the first 8 primes. *)
Definition K : list Z :=
  Eval vm_compute in
    map (fun p => cube_root (p * 2 ^ 96) mod 2 ^ 32) primes.

Definition H0 : list Z :=
  Eval vm_compute in
    map (fun p => Z.sqrt (p * 2 ^ 64) mod 2 ^ 32) (take 8 primes).

Definition w32 (x : Z) : Z := Z.land x 0xffffffff.
Definition add32 (x y : Z) : Z := w32 (x + y).
Definition rotr (n x : Z) : Z :=
  Z.lor (Z.shiftr x n) (w32 (Z.shiftl x (32 - n))).
Definition xor3 (x y z : Z) : Z := Z.lxor (Z.lxor x y) z.

Definition Ch (x y z : Z) : Z :=
  Z.lxor (Z.land x y) (Z.land (Z.lxor x 0xffffffff) z).
Definition Maj (x y z : Z) : Z :=
  xor3 (Z.land x y) (Z.land x z) (Z.land y z).
Definition Sigma0 (x : Z) : Z := xor3 (rotr 2 x) (rotr 13 x) (rotr 22 x).
Definition Sigma1 (x : Z) : Z := xor3 (rotr 6 x) (rotr 11 x) (rotr 25 x).
Definition sigma0 (x : Z) : Z := xor3 (rotr 7 x) (rotr 18 x) (Z.shiftr x 3).
Definition sigma1 (x : Z) : Z := xor3 (rotr 17 x) (rotr 19 x) (Z.shiftr x 10).

Definition byte_val (b : Byte.byte) : Z := Z.of_N (Byte.to_N b).
Definition byte_of (z : Z) : Byte.byte :=
  default Byte.x00 (Byte.of_N (Z.to_N (Z.land z 0xff))).

(** Big-endian 32-bit words of a block. *)
Fixpoint words (bs : bytes) : list Z :=
  match bs with
  | a :: b :: c :: d :: bs' =>
      (byte_val a * 16777216 + byte_val b * 65536 + byte_val c * 256
       + byte_val d) :: words bs'
  | _ => []
  end.

Definition word_bytes (w : Z) : bytes :=
  [byte_of (Z.shiftr w 24); byte_of (Z.shiftr w 16); byte_of (Z.shiftr w 8);
   byte_of w].

(** The message schedule, most recent word first: [rev_w] holds
    W(t-1), W(t-2), ... *)
Fixpoint schedule (n : nat) (rev_w : list Z) : list Z :=
  match n with
  | O => rev_w
  | S n' =>
      let w i := nth i rev_w 0 in
      schedule n'
        (add32 (add32 (sigma1 (w 1%nat)) (w 6%nat))
               (add32 (sigma0 (w 14%nat)) (w 15%nat)) :: rev_w)
  end.

Definition round (v : list Z) (kw : Z * Z) : list Z :=
  match v with
  | [a; b; c; d; e; f; g; h] =>
      let t1 := add32 (add32 (add32 h (Sigma1 e)) (add32 (Ch e f g) kw.1)) kw.2 in
      let t2 := add32 (Sigma0 a) (Maj a b c) in
      [add32 t1 t2; a; b; c; add32 d t1; e; f; g]
  | _ => v
  end.

Definition compress (chain : list Z) (block : bytes) : list Z :=
  let w := rev (schedule 48 (rev (words block))) in
  let v := fold_left round (combine K w) chain in
  map (fun p : Z * Z => add32 p.1 p.2) (combine chain v).

Definition padding (len : nat) : bytes :=
  let zeros := ((55 - Z.of_nat len) mod 64)%Z in
  let bits := (8 * Z.of_nat len)%Z in
  Byte.x80 :: repeat Byte.x00 (Z.to_nat zeros)
  ++ word_bytes (Z.shiftr bits 32) ++ word_bytes (w32 bits).

Fixpoint blocks (fuel : nat) (chain : list Z) (bs : bytes) : list Z :=
  match fuel with
  | O => chain
  | S fuel' =>
      match bs with
      | [] => chain
      | _ => blocks fuel' (compress chain (take 64 bs)) (drop 64 bs)
      end
  end.

Definition sha256 (msg : bytes) : bytes :=
  let padded := msg ++ padding (length msg) in
  concat (map word_bytes (blocks (length padded) H0 padded)).

End Sha256.

(** [hashlib.sha256]: the state is the data fed so far. *)
Definition sha256_alg : HashAlg :=
  {| h_state := bytes;
     h_new := [];
     h_update := fun st data => st ++ data;
     h_digest := Sha256.sha256 |}.

Module Sample.

Definition byte_of_nat (n : nat) : Byte.byte :=
  default Byte.x00 (Byte.of_nat n).

Definition utf_8_char (c : ascii) : bytes :=
  let n := ord c in
  if (n <? 128)%nat then [byte_of_nat n]
  else [byte_of_nat (192 + n / 64); byte_of_nat (128 + n mod 64)].

Fixpoint flat_map_string (f : ascii -> bytes) (s : string) : bytes :=
  match s with
  | EmptyString => []
  | String c s' => f c ++ flat_map_string f s'
  end.

(** [text.encode(name)] for seven codecs, on a little-endian machine
    (the codecs [utf_16] and [utf_32] start with a byte order mark in the
    byte order of the machine). *)
Definition encode (name text : string) : result bytes :=
  let name := replace_char "-" "_" (lower name) in
  if String.eqb name "utf_8" then Ok (flat_map_string utf_8_char text)
  else if String.eqb name "ascii" then
    if is_ascii_text text then Ok (bytes_of_string text)
    else Raise (UnicodeEncodeError "ordinal not in range(128)")
  else if String.eqb name "latin_1" then Ok (bytes_of_string text)
  else if String.eqb name "utf_16_le" then
    Ok (flat_map_string (fun c => [byte_of_ascii c; Byte.x00]) text)
  else if String.eqb name "utf_16_be" then
    Ok (flat_map_string (fun c => [Byte.x00; byte_of_ascii c]) text)
  else if String.eqb name "utf_16" then
    Ok (Byte.xff :: Byte.xfe
        :: flat_map_string (fun c => [byte_of_ascii c; Byte.x00]) text)
  else if String.eqb name "utf_32" then
    Ok (Byte.xff :: Byte.xfe :: Byte.x00 :: Byte.x00
        :: flat_map_string
             (fun c => [byte_of_ascii c; Byte.x00; Byte.x00; Byte.x00]) text)
  else Raise (LookupError ("unknown encoding: " +:+ name)).

(** A runtime with [hashlib.sha256] alone, the codecs above, uuids that
    count the calls, a clock that advances by one second at each reading
    and a file system in which only [/nonexistent] cannot be written to. *)
Definition runtime : Runtime :=
  {| hashlib := fun name =>
       if String.eqb name "sha256" then Ok sha256_alg
       else Raise (AttributeError
              ("module 'hashlib' has no attribute " +:+ repr_str name));
     str_encode := encode;
     uuid1_str := fun n =>
       "6fa459ea-ee8a-11ee-a506-" +:+ hex4 (N.of_nat n / 4294967296)
       +:+ hex4 (N.of_nat n / 65536 mod 65536) +:+ hex4 (N.of_nat n mod 65536);
     time_int := fun n => (1700000000 + Z.of_nat n)%Z;
     ctime := fun n => "Tue Nov 14 22:13:" +:+ string_of_N (20 + N.of_nat n mod 40)
                       +:+ " 2023";
     open_w_error := fun path =>
       if String.prefix "/nonexistent/" path
       then Some (OSError "No such file or directory")
       else None |}.

(** Supported sets to run the functions with: the algorithm and the
    codecs of [runtime], under their normalized names.  The lists of
    [pymerkle.constants] themselves are not in the two files. *)
Definition constants : Constants :=
  {| ALGORITHMS := ["sha256"];
     ENCODINGS := ["ascii"; "latin_1"; "utf_8"; "utf_16"; "utf_16_le";
                   "utf_16_be"; "utf_32"] |}.

(** An entry [(sign, hash)] of a proof path. *)
Definition signed_hash (v : pyval) : result (Z * bytes) :=
  match v with
  | PList [PInt sign; PBytes h] => Ok (sign, h)
  | _ => Raise (TypeError "not a signed hash")
  end.

Fixpoint fold_path (RT : Runtime) (self : HashEngine) (acc : bytes)
    (path : list pyval) : result bytes :=
  match path with
  | [] => Ok acc
  | v :: path' =>
      '(sign, h) ← signed_hash v;
      acc ← (if (sign <? 0)%Z then hash_pair self h acc
              else hash_pair self acc h);
      fold_path RT self acc path'
  end.

(** Modelled from the spec: [pymerkle.hashing.HashMachine] and
    [pymerkle.proof.Proof] are missing.  One instance of the interface, on
    the convention the specification suggests: a left fold from the start
    index in which the sign of an entry gives the side of its operand; the
    machine is a [HashEngine] and the validation parameters are read from
    the header of the proof. *)
Definition hash_machine (RT : Runtime) (CS : Constants) : HashMachine :=
  {| machine := HashEngine;
     HashMachine_init := fun hash_type encoding raw_bytes security =>
       match hash_type, encoding with
       | PStr a, PStr e => HashEngine_init a e (truthy security)
       | _, _ => Raise (AttributeError "object has no attribute 'lower'")
       end;
     multi_hash := fun self signed_hashes start =>
       match signed_hashes, start with
       | PList path, PInt i =>
           match drop (Z.to_nat i) path with
           | v :: path' => '(_, h) ← signed_hash v; fold_path RT self h path'
           | [] => Raise (IndexError "list index out of range")
           end
       | _, _ => Raise (TypeError "not a proof path")
       end;
     get_validation_params := fun proof =>
       hash_type ← getitem (proof_header proof) "hash_type";
       encoding ← getitem (proof_header proof) "encoding";
       raw_bytes ← getitem (proof_header proof) "raw_bytes";
       security ← getitem (proof_header proof) "security";
       Ok (<["hash_type" := hash_type]> (<["encoding" := encoding]>
          (<["raw_bytes" := raw_bytes]> (<["security" := security]> ∅)))) |}.

End Sample.

(** ** Inputs to run the functions on *)

Section SampleData.
#[local] Existing Instance Sample.runtime.
#[local] Existing Instance Sample.constants.

Definition sample_machine : HashMachine :=
  Sample.hash_machine Sample.runtime Sample.constants.
#[local] Existing Instance sample_machine.

Definition utf_8_engine : HashEngine :=
  {| algorithm := "sha256"; encoding := "utf_8"; security := true;
     prefx00 := [Byte.x00]; prefx01 := [Byte.x01] |}.

Definition utf_16_engine : HashEngine :=
  {| algorithm := "sha256"; encoding := "utf_16"; security := true;
     prefx00 := [Byte.xff; Byte.xfe; Byte.x00; Byte.x00];
     prefx01 := [Byte.xff; Byte.xfe; Byte.x01; Byte.x00] |}.

Definition plain_engine : HashEngine :=
  {| algorithm := "sha256"; encoding := "utf_8"; security := false;
     prefx00 := []; prefx01 := [] |}.

Definition hash_a : bytes :=
  bytes_of_string "022a6979e6dab7aa5ae4c3e5e45f7e977112a7e63593820dbec1ec738a24f93c".
Definition hash_b : bytes :=
  bytes_of_string "57eb35615d47f34ec714cacdf5fd74608a5e8e102724e80b24b287c0c27b6a31".
Definition hash_ab : bytes :=
  bytes_of_string "9d53c5e93a2a48ed466424beba7933f8009aa0c758a8b4833b62ee6bebcfdf20".

(** A proof of two entries, generated by a tree with the configuration
    [sha256], [utf-8], security on. *)
Definition sample_proof : Proof :=
  {| proof_header :=
       <["generation" := PBool true]> (<["status" := PNone]>
       (<["uuid" := PStr "0ac1d7f2-ee8a-11ee-a506-0242ac120002"]>
       (<["provider" := PStr "f4c3b00c-ee89-11ee-a506-0242ac120002"]>
       (<["hash_type" := PStr "sha256"]> (<["encoding" := PStr "utf-8"]>
       (<["raw_bytes" := PBool true]> (<["security" := PBool true]> ∅)))))));
     proof_body :=
       <["proof_path" := PList [PList [PInt 1; PBytes hash_a];
                                PList [PInt 1; PBytes hash_b]]]>
       (<["proof_index" := PInt 0]> ∅) |}.

Definition sample_validator : @machine sample_machine := utf_8_engine.

(** The proof that a tree gives when it could not generate one. *)
Definition failed_proof : Proof :=
  {| proof_header :=
       <["generation" := PBool false]> (proof_header sample_proof);
     proof_body :=
       <["proof_path" := PList []]> (<["proof_index" := PInt (-1)]> ∅) |}.

Definition config_without_algorithm : gmap string pyval :=
  <["hash_type" := PStr "sha256"]> (<["encoding" := PStr "utf-8"]>
  (<["raw_bytes" := PBool true]> (<["security" := PBool true]> ∅))).

Definition config_with_algorithm : gmap string pyval :=
  <["algorithm" := PStr "sha256"]> (<["encoding" := PStr "utf-8"]>
  (<["raw_bytes" := PBool true]> (<["security" := PBool true]> ∅))).

Definition world0 : World :=
  {| uuid_calls := 0; clock_reads := 0; files := ∅ |}.

Definition sample_receipt : Receipt :=
  {| header :=
       receipt_header (PStr "6fa459ea-ee8a-11ee-a506-000000000000")
         (PInt 1700000000) (PStr "Tue Nov 14 22:13:21 2023");
     body :=
       receipt_body (PStr "0ac1d7f2-ee8a-11ee-a506-0242ac120002")
         (PStr "f4c3b00c-ee89-11ee-a506-0242ac120002") (PBool true) |}.

End SampleData.

(** * Properties *)

(** ** Results *)

Lemma rbind_Ok {A B} (c : result A) (k : A -> result B) (b : B) :
  c ≫= k = Ok b -> exists a, c = Ok a /\ k a = Ok b.
Proof. destruct c as [a|e]; [eauto | discriminate]. Qed.

Lemma rbind_Raise {A B} (c : result A) (k : A -> result B) (e : exn) :
  c ≫= k = Raise e -> c = Raise e \/ exists a, c = Ok a /\ k a = Raise e.
Proof. destruct c as [a|e']; [eauto | intros [= ->]; auto]. Qed.

Lemma bind_Ok_l {A B} (a : A) (k : A -> result B) : Ok a ≫= k = k a.
Proof. reflexivity. Qed.

Lemma bind_Raise_l {A B} (e : exn) (k : A -> result B) :
  Raise e ≫= k = Raise e.
Proof. reflexivity. Qed.

Tactic Notation "inv_bind" hyp(H) "as" simple_intropattern(a) ident(Ha) :=
  apply rbind_Ok in H as (a & Ha & H).

(** ** The chunked digest *)

Section Chunking.
Context {RT : Runtime}.

Lemma slice_chunk (buffer : bytes) (offset : nat) :
  slice buffer offset (offset + chunksize) = take chunksize (drop offset buffer).
Proof. unfold slice. f_equal. generalize chunksize. lia. Qed.

Lemma slice_first (buffer : bytes) :
  slice buffer 0 chunksize = take chunksize (drop 0 buffer).
Proof. unfold slice. f_equal. Qed.

Lemma take_chunk_nil (l : bytes) : take chunksize l = [] -> l = [].
Proof. destruct l; [done | discriminate]. Qed.

(** With fuel above the number of bytes left, the loop ends, and the hash
    object has been fed exactly the bytes from [offset] on. *)
Lemma consume_loop_update (H : HashAlg) (L : HashAlgLaws H) (buffer : bytes) :
  forall fuel offset (hasher : h_state H),
    length (drop offset buffer) < fuel ->
    consume_loop fuel H hasher buffer offset (take chunksize (drop offset buffer))
    = Some (h_update H hasher (drop offset buffer)).
Proof.
  induction fuel as [|fuel IH]; intros offset hasher Hfuel; [lia|].
  destruct (take chunksize (drop offset buffer)) as [|b chunk] eqn:Hchunk.
  - apply take_chunk_nil in Hchunk. rewrite Hchunk.
    cbn. now rewrite (h_update_nil H L).
  - cbn [consume_loop]. rewrite slice_chunk, IH.
    + rewrite (h_update_app H L), <- Hchunk, <- drop_drop, take_drop.
      reflexivity.
    + rewrite <- drop_drop, length_drop.
      assert (0 < length (drop offset buffer)).
      { destruct (drop offset buffer); [discriminate | cbn; lia]. }
      assert (0 < chunksize) by (unfold chunksize; apply Nat.lt_0_succ).
      generalize dependent chunksize. intros. lia.
Qed.

Lemma consume_loop_total (H : HashAlg) (L : HashAlgLaws H) (buffer : bytes) :
  consume_loop (consume_fuel buffer) H (h_new H) buffer 0
    (slice buffer 0 chunksize)
  = Some (h_update H (h_new H) buffer).
Proof.
  rewrite slice_first.
  rewrite (consume_loop_update H L buffer (consume_fuel buffer) 0 (h_new H)).
  - reflexivity.
  - unfold consume_fuel. rewrite drop_0. lia.
Qed.

(** The chunked digest is the digest in one shot. *)
Lemma consume_oneshot {RL : RuntimeLaws RT} (self : HashEngine) (buffer : bytes) :
  consume self buffer = digest_oneshot self buffer.
Proof.
  unfold consume, digest_oneshot.
  destruct (hashlib (algorithm self)) as [H|e] eqn:Halg; [|reflexivity].
  rewrite !bind_Ok_l.
  now rewrite (consume_loop_total H (hashlib_laws _ _ Halg)).
Qed.

End Chunking.

(** ** Hexadecimal text *)

Lemma hexdigit_lower (n : N) : is_lower_hex (hexdigit n) = true.
Proof.
  destruct n as [|p]; [reflexivity|].
  do 4 (try destruct p as [p|p|]); reflexivity.
Qed.

Lemma hexdigit_ascii (n : N) : is_ascii_char (hexdigit n) = true.
Proof.
  destruct n as [|p]; [reflexivity|].
  do 4 (try destruct p as [p|p|]); reflexivity.
Qed.

Lemma hexlify_lower (bs : bytes) : string_forall is_lower_hex (hexlify bs) = true.
Proof.
  induction bs as [|b bs IH]; [reflexivity|].
  cbn [hexlify string_forall]. now rewrite !hexdigit_lower, IH.
Qed.

Lemma hexlify_ascii (bs : bytes) : is_ascii_text (hexlify bs) = true.
Proof.
  unfold is_ascii_text.
  induction bs as [|b bs IH]; [reflexivity|].
  cbn [hexlify string_forall]. now rewrite !hexdigit_ascii, IH.
Qed.

Lemma hexlify_length (bs : bytes) : String.length (hexlify bs) = 2 * length bs.
Proof. induction bs as [|b bs IH]; cbn [hexlify String.length length]; lia. Qed.

(** ** The hash engine *)

Section HashEngineProperties.
Context {RT : Runtime} {CS : Constants}.

Lemma validate_parameter_Ok (provided : string) (supported : list string) :
  normalize provided ∈ supported ->
  validate_parameter provided supported = Ok (normalize provided).
Proof. intros Hin. unfold validate_parameter. now rewrite bool_decide_eq_true_2. Qed.

Lemma validate_parameter_Raise (provided : string) (supported : list string) :
  normalize provided ∉ supported ->
  validate_parameter provided supported
  = Raise (UnsupportedParameter (provided +:+ " is not supported")).
Proof. intros Hin. unfold validate_parameter. now rewrite bool_decide_eq_false_2. Qed.

Lemma validate_parameter_inv (provided : string) (supported : list string) n :
  validate_parameter provided supported = Ok n ->
  n = normalize provided /\ normalize provided ∈ supported.
Proof.
  unfold validate_parameter. case_bool_decide; [|discriminate].
  now intros [= <-].
Qed.

(** What a successful construction leaves in the engine. *)
Lemma HashEngine_init_inv (a e : string) (sec : bool) (self : HashEngine) :
  HashEngine_init a e sec = Ok self ->
  normalize a ∈ ALGORITHMS /\ normalize e ∈ ENCODINGS
  /\ algorithm self = a /\ encoding self = normalize e /\ security self = sec
  /\ (if sec then str_encode (normalize e) (String (chr 0) "") else Ok [])
     = Ok (prefx00 self)
  /\ (if sec then str_encode (normalize e) (String (chr 1) "") else Ok [])
     = Ok (prefx01 self).
Proof.
  unfold HashEngine_init, validate_parameters. intros H.
  inv_bind H as [a' e'] Hv.
  inv_bind Hv as na Ha. apply validate_parameter_inv in Ha as [-> Ha].
  inv_bind Hv as ne He. apply validate_parameter_inv in He as [-> He].
  injection Hv as <- <-.
  inv_bind H as p0 Hp0. inv_bind H as p1 Hp1. injection H as <-. cbn. auto 10.
Qed.

Lemma hash_pair_oneshot {RL : RuntimeLaws RT} (self : HashEngine) (left right : bytes) :
  hash_pair self left right
  = digest_oneshot self (prefx01 self ++ left ++ prefx01 self ++ right).
Proof. unfold hash_pair. apply consume_oneshot. Qed.

Lemma hash_entry_oneshot {RL : RuntimeLaws RT} (self : HashEngine) (data : pyval) :
  hash_entry self data
  = (bs ← entry_bytes self data; digest_oneshot self (prefx00 self ++ bs)).
Proof.
  unfold hash_entry. destruct (entry_bytes self data); [|reflexivity].
  rewrite !bind_Ok_l. apply consume_oneshot.
Qed.

Lemma digest_oneshot_hex (self : HashEngine) (H : HashAlg) (buffer : bytes) :
  hashlib (algorithm self) = Ok H ->
  digest_oneshot self buffer
  = str_encode (encoding self) (hexdigest H (h_update H (h_new H) buffer)).
Proof. intros Halg. unfold digest_oneshot. now rewrite Halg. Qed.

(** C4: for every engine and every buffer, [consume], which feeds the
    buffer to the hash object in chunks of 1024 bytes, ends and gives what
    hashing the whole buffer in one call of [update] gives: the lowercase
    hexadecimal digest of the engine's algorithm over the buffer, encoded
    with the engine's encoding. *)
Theorem consume_chunking_invisible {RL : RuntimeLaws RT}
    (self : HashEngine) (buffer : bytes) :
  consume self buffer = digest_oneshot self buffer
  /\ forall H, hashlib (algorithm self) = Ok H ->
       consume self buffer
       = str_encode (encoding self) (hexdigest H (h_update H (h_new H) buffer))
       /\ string_forall is_lower_hex (hexdigest H (h_update H (h_new H) buffer))
          = true.
Proof.
  split; [apply consume_oneshot|]. intros H Halg. split.
  - rewrite consume_oneshot. now apply digest_oneshot_hex.
  - apply hexlify_lower.
Qed.

(** C10: an engine constructed with [security=False] has two empty
    prefixes; [hash_pair(left, right)] is then the plain digest of
    [left + right], and it is [hash_entry(left + right)]. *)
Theorem no_security_no_separation {RL : RuntimeLaws RT}
    (a e : string) (self : HashEngine) :
  HashEngine_init a e false = Ok self ->
  prefx00 self = [] /\ prefx01 self = []
  /\ forall left right : bytes,
       hash_pair self left right = digest_oneshot self (left ++ right)
       /\ hash_pair self left right = hash_entry self (PBytes (left ++ right)).
Proof.
  intros Hinit.
  apply HashEngine_init_inv in Hinit as (_ & _ & _ & _ & _ & [= H0] & [= H1]).
  repeat split; auto.
  - rewrite hash_pair_oneshot, <- H1. reflexivity.
  - unfold hash_pair, hash_entry. cbn [entry_bytes]. rewrite bind_Ok_l.
    now rewrite <- H0, <- H1.
Qed.

(** C6, amended: construction raises [UnsupportedParameter], naming the
    value as provided, when the normalized form (lower case, every ['-']
    replaced by ['_']) of the algorithm, checked first, or of the encoding
    is not in its supported set; nothing else is computed before.  A value
    whose normalized form is supported is accepted: without security the
    construction succeeds, and every engine constructed holds the
    normalized encoding, a member of [ENCODINGS]. *)
Theorem HashEngine_init_validates (a e : string) (sec : bool) :
  (normalize a ∉ ALGORITHMS ->
     HashEngine_init a e sec
     = Raise (UnsupportedParameter (a +:+ " is not supported")))
  /\ (normalize a ∈ ALGORITHMS -> normalize e ∉ ENCODINGS ->
     HashEngine_init a e sec
     = Raise (UnsupportedParameter (e +:+ " is not supported")))
  /\ (normalize a ∈ ALGORITHMS -> normalize e ∈ ENCODINGS ->
     HashEngine_init a e false
     = Ok {| algorithm := a; encoding := normalize e; security := false;
             prefx00 := []; prefx01 := [] |})
  /\ (forall self, HashEngine_init a e sec = Ok self ->
     normalize a ∈ ALGORITHMS /\ normalize e ∈ ENCODINGS
     /\ encoding self = normalize e /\ encoding self ∈ ENCODINGS
     /\ security self = sec).
Proof.
  repeat split.
  - intros Ha. unfold HashEngine_init, validate_parameters.
    now rewrite (validate_parameter_Raise _ _ Ha).
  - intros Ha He. unfold HashEngine_init, validate_parameters.
    now rewrite (validate_parameter_Ok _ _ Ha), (validate_parameter_Raise _ _ He).
  - intros Ha He. unfold HashEngine_init, validate_parameters.
    now rewrite (validate_parameter_Ok _ _ Ha), (validate_parameter_Ok _ _ He).
  - now apply HashEngine_init_inv in H.
  - now apply HashEngine_init_inv in H.
  - now apply HashEngine_init_inv in H.
  - apply HashEngine_init_inv in H as (_ & He & _ & -> & _). exact He.
  - now apply HashEngine_init_inv in H.
Qed.

(** C2, amended: for an engine constructed from [(a, e, sec)] and every
    input, [hash_entry] encodes text with the engine's encoding, prepends
    the prefix of the engine (empty without security; with security the
    engine's encoding of the character U+0000, which is the single byte
    0x00 exactly for the encodings that give this byte) and returns the
    digest in one shot of that buffer: where [hashlib] has the engine's
    algorithm, the lowercase hexadecimal digest, encoded with the engine's
    encoding. *)
Theorem hash_entry_spec {RL : RuntimeLaws RT}
    (a e : string) (sec : bool) (self : HashEngine) (data : pyval) :
  HashEngine_init a e sec = Ok self ->
  (sec = false -> prefx00 self = [])
  /\ (sec = true ->
      str_encode (encoding self) (String (chr 0) "") = Ok (prefx00 self))
  /\ hash_entry self data
     = (bs ← entry_bytes self data; digest_oneshot self (prefx00 self ++ bs))
  /\ (forall H bs, hashlib (algorithm self) = Ok H ->
        entry_bytes self data = Ok bs ->
        hash_entry self data
        = str_encode (encoding self)
            (hexdigest H (h_update H (h_new H) (prefx00 self ++ bs)))
        /\ string_forall is_lower_hex
             (hexdigest H (h_update H (h_new H) (prefx00 self ++ bs))) = true).
Proof.
  intros Hinit.
  apply HashEngine_init_inv in Hinit as (_ & _ & _ & He & _ & H0 & _).
  split; [|split; [|split]].
  - intros ->. now injection H0.
  - intros ->. now rewrite He.
  - apply hash_entry_oneshot.
  - intros H bs Halg Hbs. split; [|apply hexlify_lower].
    rewrite hash_entry_oneshot, Hbs, bind_Ok_l. now apply digest_oneshot_hex.
Qed.

(** C3, amended: for an engine constructed with security,
    [hash_pair(left, right)] prepends to each operand the engine's encoding
    of the character U+0001 and digests [prefix+left + prefix+right]; the
    prefix is the single byte 0x01 for the encodings that give this byte.
    So it is for [utf-8], which encodes text below U+0080 as the bytes of
    its code points: in the configuration [sha256], [utf-8], security on,
    [hash_pair(hash_entry("a"), hash_entry("b"))] is the SHA-256 digest, in
    hexadecimal, of [0x01 + hash_entry("a") + 0x01 + hash_entry("b")]. *)
Theorem hash_pair_spec {RL : RuntimeLaws RT} :
  (forall a e self, HashEngine_init a e true = Ok self ->
     str_encode (encoding self) (String (chr 1) "") = Ok (prefx01 self)
     /\ forall left right,
          hash_pair self left right
          = digest_oneshot self (prefx01 self ++ left ++ prefx01 self ++ right))
  /\ (forall sha256,
       "sha256" ∈ ALGORITHMS -> "utf_8" ∈ ENCODINGS ->
       hashlib "sha256" = Ok sha256 ->
       (forall text, is_ascii_text text = true ->
          str_encode "utf_8" text = Ok (bytes_of_string text)) ->
       exists self da db,
         HashEngine_init "sha256" "utf-8" true = Ok self
         /\ prefx01 self = [Byte.x01]
         /\ hash_entry self (PStr "a") = Ok da
         /\ hash_entry self (PStr "b") = Ok db
         /\ hash_pair self da db
            = Ok (bytes_of_string
                    (hexdigest sha256
                       (h_update sha256 (h_new sha256)
                          ([Byte.x01] ++ da ++ [Byte.x01] ++ db))))).
Proof.
  split.
  - intros a e self Hinit.
    apply HashEngine_init_inv in Hinit as (_ & _ & _ & He & _ & _ & H1).
    split; [now rewrite He | intros; apply hash_pair_oneshot].
  - intros sha256 Ha He Halg Hutf8.
    set (self := {| algorithm := "sha256"; encoding := "utf_8";
                    security := true;
                    prefx00 := [Byte.x00]; prefx01 := [Byte.x01] |}).
    assert (Hinit : HashEngine_init "sha256" "utf-8" true = Ok self).
    { unfold HashEngine_init, validate_parameters.
      rewrite (validate_parameter_Ok "sha256" _ Ha).
      rewrite (validate_parameter_Ok "utf-8" _ He).
      rewrite !bind_Ok_l. change (normalize "utf-8") with "utf_8".
      now rewrite !Hutf8. }
    assert (Hentry : forall text, is_ascii_text text = true ->
      hash_entry self (PStr text)
      = Ok (bytes_of_string
              (hexdigest sha256
                 (h_update sha256 (h_new sha256)
                    ([Byte.x00] ++ bytes_of_string text))))).
    { intros text Htext. rewrite hash_entry_oneshot. cbn [entry_bytes encoding self].
      rewrite (Hutf8 _ Htext), bind_Ok_l.
      rewrite (digest_oneshot_hex self sha256) by exact Halg.
      cbn [encoding self prefx00]. apply Hutf8, hexlify_ascii. }
    eexists self, _, _. split; [exact Hinit|]. split; [reflexivity|].
    split; [now apply Hentry|]. split; [now apply Hentry|].
    rewrite hash_pair_oneshot.
    rewrite (digest_oneshot_hex self sha256) by exact Halg.
    cbn [encoding self prefx01]. apply Hutf8, hexlify_ascii.
Qed.

End HashEngineProperties.

(** ** Strings *)

Lemma append_cons (c : ascii) (s t : string) :
  String c s +:+ t = String c (s +:+ t).
Proof. reflexivity. Qed.

Lemma append_nil_l (s : string) : "" +:+ s = s.
Proof. reflexivity. Qed.

Lemma append_assoc (s1 s2 s3 : string) : (s1 +:+ s2) +:+ s3 = s1 +:+ (s2 +:+ s3).
Proof.
  induction s1 as [|c s1 IH]; [reflexivity|].
  change (String c ((s1 +:+ s2) +:+ s3) = String c (s1 +:+ (s2 +:+ s3))).
  now rewrite IH.
Qed.

Lemma append_nil_r (s : string) : s +:+ "" = s.
Proof.
  induction s as [|c s IH]; [reflexivity|].
  change (String c (s +:+ "") = String c s). now rewrite IH.
Qed.

Lemma length_append (s1 s2 : string) :
  String.length (s1 +:+ s2) = String.length s1 + String.length s2.
Proof.
  induction s1 as [|c s1 IH]; [reflexivity|].
  change (S (String.length (s1 +:+ s2)) = S (String.length s1 + String.length s2)).
  now rewrite IH.
Qed.

Lemma list_sum_cons (a : nat) (l : list nat) : list_sum (a :: l) = a + list_sum l.
Proof. reflexivity. Qed.

Lemma ord_chr (n : nat) : n < 256 -> ord (chr n) = n.
Proof. apply nat_ascii_embedding. Qed.

Ltac each_char c := destruct c as [[] [] [] [] [] [] [] []].

(** Membership in a list given by its elements. *)
Ltac in_list := apply list_elem_of_In; cbn; tauto.
Ltac not_in_list := rewrite list_elem_of_In; cbn; intuition discriminate.

(** Decide the tests on the code of a known character. *)
Ltac eval_ord :=
  repeat match goal with
  | |- context [Nat.eqb (ord ?c) ?n] =>
      let v := eval vm_compute in (Nat.eqb (ord c) n) in
      match v with
      | true => change (Nat.eqb (ord c) n) with true
      | false => change (Nat.eqb (ord c) n) with false
      end
  end; cbn match.

(** ** json: decoding what the encoder writes *)

Lemma skip_ws_spaces (n : nat) (s : string) : skip_ws (spaces n +:+ s) = skip_ws s.
Proof. induction n as [|n IH]; [reflexivity | exact IH]. Qed.

Lemma skip_ws_newline_indent (lvl : nat) (s : string) :
  skip_ws (newline_indent lvl +:+ s) = skip_ws s.
Proof. unfold newline_indent. cbn. apply skip_ws_spaces. Qed.

Lemma skip_ws_head (c : ascii) (s : string) :
  is_ws c = false -> skip_ws (String c s) = String c s.
Proof. intros H. cbn. now rewrite H. Qed.

(** *** Text *)

Lemma scan_string_escape_char (c : ascii) (tail : string) :
  scan_string (json_escape_char c +:+ tail)
  = ('(r, rest) ← scan_string tail; Ok (String c r, rest)).
Proof. each_char c; reflexivity. Qed.

Lemma scan_string_escape (s rest : string) :
  scan_string (json_escape s +:+ dquote +:+ rest) = Ok (s, rest).
Proof.
  induction s as [|c s IH]; [reflexivity|].
  cbn [json_escape]. rewrite append_assoc, scan_string_escape_char, IH.
  reflexivity.
Qed.

Lemma parse_value_str (fuel : nat) (s rest : string) :
  parse_value (S fuel) (json_encode_str s +:+ rest) = Ok (PStr s, rest).
Proof.
  unfold json_encode_str. rewrite !append_assoc.
  change (dquote +:+ ?x) with (String (chr 34) x).
  cbn [parse_value]. eval_ord.
  now rewrite scan_string_escape.
Qed.

(** *** Integers *)

Lemma digit_char_ord (d : N) : (d < 10)%N -> ord (digit_char d) = 48 + N.to_nat d.
Proof. intros H. unfold digit_char. apply ord_chr. lia. Qed.

Lemma digit_char_is_digit (d : N) : (d < 10)%N -> is_digit (digit_char d) = true.
Proof.
  intros H. unfold is_digit. rewrite (digit_char_ord d H).
  apply andb_true_intro. split; apply Nat.leb_le; lia.
Qed.

Lemma digit_char_val (d : N) : (d < 10)%N -> digit_val (digit_char d) = d.
Proof. intros H. unfold digit_val. rewrite (digit_char_ord d H). lia. Qed.

Lemma digits_of_append (fuel : nat) (n : N) (acc rest : string) :
  digits_of fuel n acc +:+ rest = digits_of fuel n (acc +:+ rest).
Proof.
  revert n acc. induction fuel as [|fuel IH]; intros n acc; [reflexivity|].
  cbn [digits_of]. destruct (n <? 10)%N; [reflexivity | now rewrite IH].
Qed.

(** Scanning the digits of [n] multiplies the accumulator by a power of
    ten above [n] and adds [n]. *)
Lemma scan_digits_digits_of (fuel : nat) :
  forall (n : N) (acc : string),
    (n < 2 ^ N.of_nat fuel)%N ->
    exists k, (n < k)%N /\ forall a,
      scan_digits (digits_of fuel n acc) a = scan_digits acc (a * k + n)%N.
Proof.
  induction fuel as [|fuel IH]; intros n acc Hn.
  - exists 1%N. split; [exact Hn|]. intros a. cbn [digits_of].
    replace (a * 1 + n)%N with a by (cbn in Hn; lia). reflexivity.
  - cbn [digits_of]. destruct (N.ltb_spec n 10) as [Hlt|Hge].
    + exists 10%N. split; [exact Hlt|]. intros a. cbn [scan_digits].
      rewrite N.mod_small by exact Hlt.
      now rewrite (digit_char_is_digit n Hlt), (digit_char_val n Hlt).
    + destruct (IH (n / 10)%N (String (digit_char (n mod 10)) acc))
        as (k & Hk & Hscan).
      { rewrite Nat2N.inj_succ, N.pow_succ_r' in Hn.
        apply N.Div0.div_lt_upper_bound. lia. }
      exists (10 * k)%N. split.
      * pose proof (N.Div0.div_mod n 10) as Hdm.
        pose proof (N.mod_lt n 10 ltac:(lia)). lia.
      * intros a. rewrite Hscan. cbn [scan_digits].
        assert (Hd : (n mod 10 < 10)%N) by (apply N.mod_lt; lia).
        rewrite (digit_char_is_digit _ Hd), (digit_char_val _ Hd).
        f_equal. pose proof (N.Div0.div_mod n 10). lia.
Qed.

(** The first digit of a positive number is not a zero. *)
Lemma digits_of_head (fuel : nat) :
  forall (n : N) (acc : string),
    (n < 2 ^ N.of_nat fuel)%N -> (0 < n)%N ->
    exists c s, digits_of fuel n acc = String c s
                /\ is_digit c = true /\ ord c <> 48.
Proof.
  induction fuel as [|fuel IH]; intros n acc Hn Hpos.
  - cbn in Hn. lia.
  - cbn [digits_of]. destruct (N.ltb_spec n 10) as [Hlt|Hge].
    + eexists _, _. split; [reflexivity|].
      rewrite N.mod_small by exact Hlt. split.
      * now apply digit_char_is_digit.
      * rewrite (digit_char_ord n Hlt). lia.
    + apply IH.
      * rewrite Nat2N.inj_succ, N.pow_succ_r' in Hn.
        apply N.Div0.div_lt_upper_bound. lia.
      * apply N.div_str_pos. lia.
Qed.

Lemma string_of_N_fuel (n : N) : (n < 2 ^ N.of_nat (S (N.to_nat (N.log2 n))))%N.
Proof.
  rewrite Nat2N.inj_succ, N2Nat.id.
  destruct n as [|p]; [reflexivity|]. apply N.log2_spec. lia.
Qed.

Lemma delimited_scan_digits (rest : string) (a : N) :
  delimited rest -> scan_digits rest a = (a, rest).
Proof.
  destruct rest as [|c rest]; [reflexivity|]. cbn. intros Hc.
  assert (is_digit c = false) as ->; [|reflexivity].
  unfold is_digit. destruct Hc as [-> | ->]; reflexivity.
Qed.

Lemma delimited_float_tail (rest : string) : delimited rest -> float_tail rest = false.
Proof.
  destruct rest as [|c [|d rest]]; try reflexivity. cbn.
  intros [-> | ->]; reflexivity.
Qed.

Lemma scan_natural_string_of_N (p : positive) (rest : string) :
  delimited rest ->
  scan_natural (string_of_N (Npos p) +:+ rest) = Ok (Npos p, rest).
Proof.
  intros Hrest. unfold string_of_N. rewrite digits_of_append.
  change ("" +:+ rest) with rest.
  pose proof (string_of_N_fuel (Npos p)) as Hfuel.
  destruct (digits_of_head _ (Npos p) rest Hfuel ltac:(lia))
    as (c & s & Hcs & Hdigit & Hzero).
  destruct (scan_digits_digits_of _ (Npos p) rest Hfuel) as (k & _ & Hscan).
  unfold scan_natural. rewrite Hcs.
  apply Nat.eqb_neq in Hzero. rewrite Hzero, Hdigit, <- Hcs, Hscan.
  now rewrite delimited_scan_digits.
Qed.

Lemma scan_number_string_of_Z (z : Z) (rest : string) :
  delimited rest -> scan_number (string_of_Z z +:+ rest) = Ok (PInt z, rest).
Proof.
  intros Hrest. pose proof (delimited_float_tail rest Hrest) as Hfloat.
  destruct z as [|p|p]; unfold scan_number.
  - cbn [string_of_Z]. rewrite append_cons, append_nil_l. eval_ord.
    cbn [scan_natural]. eval_ord. rewrite bind_Ok_l. now rewrite Hfloat.
  - pose proof (string_of_N_fuel (Npos p)) as Hfuel.
    destruct (digits_of_head _ (Npos p) "" Hfuel ltac:(lia))
      as (c & s & Hcs & Hdigit & _).
    cbn [string_of_Z]. unfold string_of_N at 1. rewrite Hcs, append_cons.
    assert ((ord c =? 45)%nat = false) as ->.
    { revert Hdigit. clear. each_char c; (discriminate || reflexivity). }
    rewrite (scan_natural_string_of_N p rest Hrest), bind_Ok_l.
    now rewrite Hfloat.
  - cbn [string_of_Z]. rewrite append_cons.
    eval_ord. rewrite (scan_natural_string_of_N p rest Hrest), bind_Ok_l.
    now rewrite Hfloat.
Qed.

(** *** Dispatch on the first character *)

Lemma parse_value_S (fuel : nat) (c : ascii) (s' : string) :
  parse_value (S fuel) (String c s')
  = let s := String c s' in
    let n := ord c in
    if (n =? 34)%nat then '(x, rest) ← scan_string s'; Ok (PStr x, rest)
    else if (n =? 123)%nat then
      match skip_ws s' with
      | String c1 s1 =>
          if (ord c1 =? 125)%nat then Ok (PDict ∅, s1)
          else if (ord c1 =? 34)%nat then parse_members fuel s1 ∅
          else Raise (JSONDecodeError "Expecting property name")
      | EmptyString => Raise (JSONDecodeError "Expecting property name")
      end
    else if (n =? 91)%nat then
      match skip_ws s' with
      | String c1 s1 =>
          if (ord c1 =? 93)%nat then Ok (PList [], s1)
          else parse_elements fuel (String c1 s1) []
      | EmptyString => Raise (JSONDecodeError "Expecting value")
      end
    else match scan_literal s with
         | Some r => r
         | None => scan_number s
         end.
Proof. reflexivity. Qed.

Lemma parse_members_S (fuel : nat) (s : string) (pairs : gmap string pyval) :
  parse_members (S fuel) s pairs
  = ('(key, s1) ← scan_string s;
     s2 ← expect 58 "Expecting ':' delimiter" (skip_ws s1);
     '(value, s3) ← parse_value fuel (skip_ws s2);
     let pairs := <[key := value]> pairs in
     match skip_ws s3 with
     | String c s4 =>
         if (ord c =? 125)%nat then Ok (PDict pairs, s4)
         else if (ord c =? 44)%nat then
           s5 ← expect 34 "Expecting property name" (skip_ws s4);
           parse_members fuel s5 pairs
         else Raise (JSONDecodeError "Expecting ',' delimiter")
     | EmptyString => Raise (JSONDecodeError "Expecting ',' delimiter")
     end).
Proof. reflexivity. Qed.

Lemma parse_elements_S (fuel : nat) (s : string) (values : list pyval) :
  parse_elements (S fuel) s values
  = ('(value, s1) ← parse_value fuel s;
     let values := values ++ [value] in
     match skip_ws s1 with
     | String c s2 =>
         if (ord c =? 93)%nat then Ok (PList values, s2)
         else if (ord c =? 44)%nat then parse_elements fuel (skip_ws s2) values
         else Raise (JSONDecodeError "Expecting ',' delimiter")
     | EmptyString => Raise (JSONDecodeError "Expecting ',' delimiter")
     end).
Proof. reflexivity. Qed.

Lemma parse_value_digit (fuel : nat) (c : ascii) (s : string) :
  is_digit c = true ->
  parse_value (S fuel) (String c s) = scan_number (String c s).
Proof. each_char c; (discriminate || reflexivity). Qed.

Lemma parse_value_minus (fuel : nat) (c : ascii) (s : string) :
  is_digit c = true ->
  parse_value (S fuel) (String "-" (String c s)) = scan_number (String "-" (String c s)).
Proof. each_char c; (discriminate || reflexivity). Qed.

Lemma string_of_N_head (p : positive) :
  exists c s, string_of_N (Npos p) = String c s /\ is_digit c = true.
Proof.
  destruct (digits_of_head _ (Npos p) "" (string_of_N_fuel (Npos p)) ltac:(lia))
    as (c & s & Hcs & Hdigit & _).
  eauto.
Qed.

Lemma parse_value_int (fuel : nat) (z : Z) (rest : string) :
  delimited rest ->
  parse_value (S fuel) (string_of_Z z +:+ rest) = Ok (PInt z, rest).
Proof.
  intros Hrest. rewrite <- (scan_number_string_of_Z z rest Hrest).
  destruct z as [|p|p]; cbn [string_of_Z].
  - reflexivity.
  - destruct (string_of_N_head p) as (c & s & -> & Hdigit).
    rewrite append_cons. now apply parse_value_digit.
  - destruct (string_of_N_head p) as (c & s & -> & Hdigit).
    rewrite !append_cons. now apply parse_value_minus.
Qed.

Lemma is_digit_value_head (c : ascii) : is_digit c = true -> value_head c = true.
Proof. each_char c; (discriminate || reflexivity). Qed.

Lemma json_encode_head (lvl : nat) (v : pyval) :
  json_serializable v = true ->
  exists c s, json_encode lvl v = String c s /\ value_head c = true.
Proof.
  destruct v as [|[]|z|s|bs|l|d]; intros Hv; try discriminate;
    cbn [json_encode].
  - eexists _, _. split; reflexivity.
  - eexists _, _. split; reflexivity.
  - eexists _, _. split; reflexivity.
  - destruct z as [|p|p]; cbn [string_of_Z].
    + eexists _, _. split; reflexivity.
    + destruct (string_of_N_head p) as (c & s & -> & Hdigit).
      eexists _, _. split; [reflexivity | now apply is_digit_value_head].
    + eexists _, _. split; reflexivity.
  - eexists _, _. split; reflexivity.
  - destruct l; eexists _, _; split; reflexivity.
  - destruct (sorted_items _); eexists _, _; split; reflexivity.
Qed.

Lemma value_head_skip_ws (c : ascii) (s : string) :
  value_head c = true -> skip_ws (String c s) = String c s.
Proof.
  intros H. apply skip_ws_head. unfold value_head in H.
  apply andb_prop in H as [H _]. now apply negb_true_iff in H.
Qed.

Lemma value_head_bracket (c : ascii) :
  value_head c = true -> (ord c =? 93)%nat = false.
Proof.
  intros H. unfold value_head in H.
  apply andb_prop in H as [_ H]. now apply negb_true_iff in H.
Qed.

Lemma json_encode_length (lvl : nat) (v : pyval) :
  json_serializable v = true -> 0 < String.length (json_encode lvl v).
Proof.
  intros Hv. destruct (json_encode_head lvl v Hv) as (c & s & -> & _).
  cbn. lia.
Qed.

Lemma newline_indent_length (lvl : nat) : 0 < String.length (newline_indent lvl).
Proof. cbn. lia. Qed.

Lemma delimited_newline_indent (lvl : nat) (s : string) :
  delimited (newline_indent lvl +:+ s).
Proof. right. reflexivity. Qed.

Lemma delimited_comma (s : string) : delimited ("," +:+ s).
Proof. left. reflexivity. Qed.

(** *** Arrays *)

Lemma concat_enc_elements (lvl : nat) (l : list pyval) (tail : string) :
  l <> [] ->
  String.concat ("," +:+ newline_indent (S lvl)) (map (json_encode (S lvl)) l)
  +:+ newline_indent lvl +:+ "]" +:+ tail
  = enc_elements lvl l tail.
Proof.
  destruct l as [|x l]; [done|]. intros _. revert x.
  induction l as [|y l IH]; intros x; [reflexivity|].
  change (String.concat ?sep (map ?f (x :: y :: l)))
    with (f x +:+ sep +:+ String.concat sep (map f (y :: l))).
  rewrite !append_assoc, IH. reflexivity.
Qed.

Lemma enc_elements_skip_ws (lvl : nat) (l : list pyval) (tail : string) :
  l <> [] -> Forall (decodes (S lvl)) l ->
  skip_ws (enc_elements lvl l tail) = enc_elements lvl l tail
  /\ exists c s, enc_elements lvl l tail = String c s
                 /\ (ord c =? 93)%nat = false.
Proof.
  destruct l as [|x l]; [done|]. intros _ Hl.
  apply Forall_cons in Hl as [[Hx _] _].
  destruct (json_encode_head (S lvl) x Hx) as (c & s & Hcs & Hc).
  cbn [enc_elements]. rewrite Hcs, append_cons. split.
  - now apply value_head_skip_ws.
  - eexists _, _. split; [reflexivity | now apply value_head_bracket].
Qed.

Lemma parse_elements_enc (lvl : nat) (rest : string) (l : list pyval) :
  l <> [] -> Forall (decodes (S lvl)) l ->
  forall acc fuel,
    list_sum (map (fun x => S (String.length (json_encode (S lvl) x))) l) <= fuel ->
    parse_elements fuel (enc_elements lvl l rest) acc = Ok (PList (acc ++ l), rest).
Proof.
  induction l as [|x l IH]; [done|]. intros _ Hl acc fuel Hfuel.
  pose proof Hl as Hl'. apply Forall_cons in Hl' as [[Hx Hdec] Hl'].
  cbn [map] in Hfuel. rewrite list_sum_cons in Hfuel.
  destruct fuel as [|fuel]; [lia|]. rewrite parse_elements_S.
  cbn [enc_elements]. destruct l as [|y l].
  - rewrite Hdec; [|lia|apply delimited_newline_indent].
    rewrite bind_Ok_l. cbn match. rewrite skip_ws_newline_indent.
    rewrite append_cons, append_nil_l. rewrite skip_ws_head by reflexivity.
    eval_ord. reflexivity.
  - rewrite Hdec; [|lia|apply delimited_comma].
    rewrite bind_Ok_l. cbn match. rewrite append_cons, append_nil_l.
    rewrite skip_ws_head by reflexivity. eval_ord.
    rewrite skip_ws_newline_indent.
    destruct (enc_elements_skip_ws lvl (y :: l) rest ltac:(done) Hl') as [-> _].
    rewrite IH; [|done|exact Hl'|cbn [map] in *; rewrite ?list_sum_cons in *; lia].
    now rewrite <- app_assoc.
Qed.

(** *** Sorted keys *)

Lemma string_leb_trans (a b c : string) :
  String.leb a b = true -> String.leb b c = true -> String.leb a c = true.
Proof.
  unfold String.leb. revert b c.
  induction a as [|x a IH]; intros [|y b] [|z c]; cbn; try done.
  unfold Ascii.compare.
  destruct (N.compare_spec (N_of_ascii x) (N_of_ascii y)) as [Hxy|Hxy|Hxy];
    destruct (N.compare_spec (N_of_ascii y) (N_of_ascii z)) as [Hyz|Hyz|Hyz];
    destruct (N.compare_spec (N_of_ascii x) (N_of_ascii z)) as [Hxz|Hxz|Hxz];
    try done; try lia.
  apply IH.
Qed.

Global Instance key_le_total {A} : Total (@key_le A).
Proof. intros x y. apply String.leb_total. Qed.

Global Instance key_le_trans {A} : Transitive (@key_le A).
Proof. intros x y z. apply string_leb_trans. Qed.

Lemma sorted_items_perm {A} (d : gmap string A) : sorted_items d ≡ₚ map_to_list d.
Proof. apply merge_sort_Permutation. Qed.

Lemma sorted_items_NoDup {A} (d : gmap string A) : NoDup (sorted_items d).*1.
Proof. rewrite sorted_items_perm. apply NoDup_fst_map_to_list. Qed.

Lemma sorted_items_elem_of {A} (d : gmap string A) (k : string) (x : A) :
  (k, x) ∈ sorted_items d <-> d !! k = Some x.
Proof. rewrite sorted_items_perm. apply elem_of_map_to_list. Qed.

Lemma sorted_items_nil {A} (d : gmap string A) : sorted_items d = [] -> d = ∅.
Proof.
  intros H. apply map_to_list_empty_iff.
  pose proof (sorted_items_perm d) as Hp. rewrite H in Hp.
  symmetry in Hp. now apply Permutation_nil_r in Hp.
Qed.

(** Sorting by key commutes with a map over the values. *)
Lemma sorted_items_fmap {A B} (f : A -> B) (d : gmap string A) :
  sorted_items (f <$> d) = prod_map id f <$> sorted_items d.
Proof.
  unfold sorted_items. rewrite map_to_list_fmap.
  apply (Sorted_unique_strong key_le).
  - intros [k1 y1] [k2 y2] H1 H2 Hle1 Hle2.
    assert (k1 = k2) as <- by (apply String.leb_antisym; assumption).
    rewrite merge_sort_Permutation in H1.
    apply list_elem_of_fmap in H1 as ([k1' x1] & [= -> ->] & H1).
    apply list_elem_of_fmap in H2 as ([k2' x2] & [= -> ->] & H2).
    rewrite merge_sort_Permutation in H2.
    f_equal. f_equal. exact (map_to_list_unique d _ _ _ H1 H2).
  - apply Sorted_merge_sort, _.
  - eapply Sorted_fmap; [|apply Sorted_merge_sort, _].
    intros [k1 x1] [k2 x2] H. exact H.
  - now rewrite !merge_sort_Permutation.
Qed.

(** Inserting the items one by one, as the decoder does, gives back the
    dictionary. *)
Lemma foldl_insert_items (L : list (string * pyval)) (acc : gmap string pyval) :
  NoDup L.*1 ->
  foldl (fun m kv => <[kv.1 := kv.2]> m) acc L = list_to_map L ∪ acc.
Proof.
  revert acc. induction L as [|[k v] L IH]; intros acc Hnd.
  - cbn. now rewrite (left_id_L ∅ (∪)).
  - apply NoDup_cons in Hnd as [Hk Hnd]. cbn [foldl list_to_map fst snd].
    rewrite IH by exact Hnd. cbn.
    rewrite <- insert_union_l. symmetry. apply insert_union_r.
    now apply not_elem_of_list_to_map_1.
Qed.

Lemma foldl_insert_sorted_items (d : gmap string pyval) :
  foldl (fun m kv => <[kv.1 := kv.2]> m) ∅ (sorted_items d) = d.
Proof.
  rewrite foldl_insert_items by apply sorted_items_NoDup.
  rewrite (right_id_L ∅ (∪)). symmetry. apply list_to_map_flip.
  symmetry. apply sorted_items_perm.
Qed.

Lemma json_serializable_dict (d : gmap string pyval) :
  json_serializable (PDict d) = true ->
  forall k v, d !! k = Some v -> json_serializable v = true.
Proof.
  change (json_serializable (PDict d))
    with (map_fold (fun _ x acc => json_serializable x && acc) true d).
  rewrite map_fold_foldr. intros H k v Hkv.
  apply elem_of_map_to_list in Hkv. revert H Hkv.
  induction (map_to_list d) as [|[k' v'] M IH]; intros H Hin.
  - now apply elem_of_nil in Hin.
  - cbn in H. apply andb_prop in H as [Hv' HM].
    apply elem_of_cons in Hin as [[= -> ->]|Hin]; auto.
Qed.

Lemma json_serializable_list (l : list pyval) :
  json_serializable (PList l) = true ->
  Forall (fun x => json_serializable x = true) l.
Proof.
  change (json_serializable (PList l)) with (forallb json_serializable l).
  intros H. apply Forall_forall. intros x Hx.
  rewrite forallb_forall in H. apply H. now apply list_elem_of_In.
Qed.

(** *** Lengths *)

Lemma concat_length_lower (sep : string) (xs : list string) :
  0 < String.length sep ->
  list_sum (map (fun x => S (String.length x)) xs)
  <= S (String.length (String.concat sep xs)).
Proof.
  intros Hsep. induction xs as [|x xs IH]; [cbn; lia|].
  destruct xs as [|y xs]; [cbn; lia|].
  change (String.concat sep (x :: y :: xs))
    with (x +:+ sep +:+ String.concat sep (y :: xs)).
  cbn [map] in *. rewrite list_sum_cons, !length_append. lia.
Qed.

Lemma list_sum_elem_of {A} (f : A -> nat) (l : list A) (x : A) :
  x ∈ l -> f x <= list_sum (map f l).
Proof.
  induction l as [|y l IH]; intros Hx; [now apply elem_of_nil in Hx|].
  cbn [map]. rewrite list_sum_cons.
  apply elem_of_cons in Hx as [->|Hx]; [lia|]. specialize (IH Hx). lia.
Qed.

Lemma list_sum_le {A} (f g : A -> nat) (l : list A) :
  (forall x, f x <= g x) -> list_sum (map f l) <= list_sum (map g l).
Proof.
  intros Hfg. induction l as [|x l IH]; [done|].
  cbn [map]. rewrite !list_sum_cons. specialize (Hfg x). lia.
Qed.

Lemma list_sum_fmap_le {A B} (f : A -> nat) (g : B -> nat) (h : A -> B)
    (l : list A) :
  (forall x, f x <= g (h x)) ->
  list_sum (map f l) <= list_sum (map g (h <$> l)).
Proof.
  intros Hfg. induction l as [|x l IH]; [done|].
  rewrite fmap_cons. cbn [map]. rewrite !list_sum_cons. specialize (Hfg x).
  apply Nat.add_le_mono; assumption.
Qed.

Lemma map_fmap {A B} (f : A -> B) (l : list A) : map f l = f <$> l.
Proof. induction l as [|x l IH]; [done|]. cbn [map]. now rewrite fmap_cons, IH. Qed.

Lemma json_item_length (kv : string * string) :
  String.length kv.2 <= String.length (json_item kv).
Proof. unfold json_item. rewrite !length_append. lia. Qed.

(** *** Objects *)

Lemma concat_enc_members (lvl : nat) (L : list (string * pyval)) (tail : string) :
  L <> [] ->
  String.concat ("," +:+ newline_indent (S lvl))
    (map json_item (prod_map id (json_encode (S lvl)) <$> L))
  +:+ newline_indent lvl +:+ "}" +:+ tail
  = dquote +:+ enc_members lvl L tail.
Proof.
  destruct L as [|x L]; [done|]. intros _. revert x.
  induction L as [|y L IH]; intros x.
  - cbn [fmap list_fmap map String.concat enc_members].
    unfold json_item, json_encode_str. cbn [prod_map fst snd id].
    now rewrite !append_assoc.
  - change (String.concat ?sep (map ?f (?g <$> x :: y :: L)))
      with (f (g x) +:+ sep +:+ String.concat sep (map f (g <$> y :: L))).
    rewrite !append_assoc, IH.
    unfold json_item, json_encode_str. cbn [prod_map fst snd id enc_members].
    now rewrite !append_assoc.
Qed.

Lemma parse_members_enc (lvl : nat) (rest : string) (L : list (string * pyval)) :
  L <> [] -> Forall (fun kv => decodes (S lvl) kv.2) L ->
  forall acc fuel,
    list_sum (map (fun kv => S (String.length (json_encode (S lvl) kv.2))) L)
    <= fuel ->
    parse_members fuel (enc_members lvl L rest) acc
    = Ok (PDict (foldl (fun m kv => <[kv.1 := kv.2]> m) acc L), rest).
Proof.
  induction L as [|[k v] L IH]; [done|]. intros _ HL acc fuel Hfuel.
  pose proof HL as HL'. apply Forall_cons in HL' as [[Hv Hdec] HL'].
  cbn [fst snd] in *.
  cbn [map] in Hfuel. rewrite list_sum_cons in Hfuel. cbn [fst snd] in Hfuel.
  destruct fuel as [|fuel]; [lia|]. rewrite parse_members_S.
  cbn [enc_members fst snd].
  rewrite scan_string_escape, bind_Ok_l. cbn match.
  rewrite !append_cons, append_nil_l.
  rewrite skip_ws_head by reflexivity. cbn [expect]. eval_ord.
  rewrite bind_Ok_l.
  destruct (json_encode_head (S lvl) v Hv) as (c & s & Hcs & Hc).
  change (skip_ws (String " " ?x)) with (skip_ws x).
  rewrite Hcs, append_cons, (value_head_skip_ws _ _ Hc), <- append_cons, <- Hcs.
  destruct L as [|y L].
  - rewrite Hdec; [|lia|apply delimited_newline_indent].
    rewrite bind_Ok_l. cbn match. rewrite skip_ws_newline_indent.
    rewrite ?append_cons, ?append_nil_l. rewrite skip_ws_head by reflexivity.
    eval_ord. reflexivity.
  - rewrite Hdec; [|lia|apply delimited_comma].
    rewrite bind_Ok_l. cbn match. rewrite ?append_cons, ?append_nil_l.
    rewrite skip_ws_head by reflexivity. eval_ord.
    rewrite skip_ws_newline_indent.
    change (dquote +:+ ?x) with (String (chr 34) x).
    rewrite skip_ws_head by reflexivity. cbn [expect]. eval_ord.
    rewrite bind_Ok_l.
    rewrite IH; [reflexivity|done|exact HL'|].
    cbn [map] in *. rewrite ?list_sum_cons in *. lia.
Qed.

(** *** The round trip *)

Lemma json_encode_list_length (lvl : nat) (l : list pyval) :
  l <> [] ->
  list_sum (map (fun x => S (String.length (json_encode (S lvl) x))) l) + 3
  <= String.length (json_encode lvl (PList l)).
Proof.
  intros Hl.
  assert (json_encode lvl (PList l)
          = "[" +:+ newline_indent (S lvl)
            +:+ String.concat ("," +:+ newline_indent (S lvl))
                  (map (json_encode (S lvl)) l)
            +:+ newline_indent lvl +:+ "]") as ->
    by (destruct l; [done | reflexivity]).
  rewrite !length_append.
  pose proof (concat_length_lower ("," +:+ newline_indent (S lvl))
                (map (json_encode (S lvl)) l)) as Hc.
  rewrite map_map in Hc. rewrite length_append in Hc.
  pose proof (newline_indent_length lvl). pose proof (newline_indent_length (S lvl)).
  cbn [String.length] in *. lia.
Qed.

Lemma json_encode_dict_length (lvl : nat) (d : gmap string pyval) :
  sorted_items d <> [] ->
  list_sum (map (fun kv => S (String.length (json_encode (S lvl) kv.2)))
              (sorted_items d)) + 3
  <= String.length (json_encode lvl (PDict d)).
Proof.
  intros Hd.
  assert (json_encode lvl (PDict d)
          = "{" +:+ newline_indent (S lvl)
            +:+ String.concat ("," +:+ newline_indent (S lvl))
                  (map json_item
                     (prod_map id (json_encode (S lvl)) <$> sorted_items d))
            +:+ newline_indent lvl +:+ "}") as ->.
  { change (json_encode lvl (PDict d))
      with (match sorted_items (json_encode (S lvl) <$> d) with
            | [] => "{}"
            | items =>
                "{" +:+ newline_indent (S lvl)
                +:+ String.concat ("," +:+ newline_indent (S lvl))
                      (map json_item items)
                +:+ newline_indent lvl +:+ "}"
            end).
    rewrite sorted_items_fmap. destruct (sorted_items d); [done | reflexivity]. }
  rewrite !length_append.
  pose proof (concat_length_lower ("," +:+ newline_indent (S lvl))
                (map json_item
                   (prod_map id (json_encode (S lvl)) <$> sorted_items d))) as Hc.
  rewrite length_append, map_map in Hc.
  pose proof (list_sum_fmap_le
    (fun kv : string * pyval => S (String.length (json_encode (S lvl) kv.2)))
    (fun x => S (String.length (json_item x)))
    (prod_map id (json_encode (S lvl)))
    (sorted_items d)) as Hle.
  pose proof (newline_indent_length lvl). pose proof (newline_indent_length (S lvl)).
  cbn [String.length] in *.
  assert (Hitem : forall kv : string * pyval,
    S (String.length (json_encode (S lvl) kv.2))
    <= S (String.length (json_item (prod_map id (json_encode (S lvl)) kv)))).
  { intros [k v]. pose proof (json_item_length (k, json_encode (S lvl) v)).
    cbn [prod_map fst snd id] in *. lia. }
  specialize (Hle Hitem). lia.
Qed.

(** The decoder reads back every value the encoder writes, whatever the
    nesting depth of the value and whatever follows it, with fuel for one
    call per character. *)
Lemma parse_value_json_encode (n : nat) :
  forall (v : pyval) (lvl : nat),
    String.length (json_encode lvl v) <= n -> decodes lvl v \/ json_serializable v = false.
Proof.
  induction n as [|n IH]; intros v lvl Hn.
  { destruct (json_serializable v) eqn:Hv; [|now right].
    pose proof (json_encode_length lvl v Hv). lia. }
  destruct (json_serializable v) eqn:Hv; [left|now right].
  split; [exact Hv|]. intros tail fuel Hfuel Htail.
  pose proof (json_encode_length lvl v Hv) as Hpos.
  destruct fuel as [|fuel]; [lia|].
  destruct v as [|[]|z|s|bs|l|d]; try discriminate.
  - reflexivity.
  - reflexivity.
  - reflexivity.
  - now apply parse_value_int.
  - apply parse_value_str.
  - destruct l as [|x l]; [reflexivity|].
    pose proof (json_encode_list_length lvl (x :: l) ltac:(done)) as Hlen.
    assert (Hl : Forall (decodes (S lvl)) (x :: l)).
    { apply Forall_forall. intros y Hy.
      pose proof (list_sum_elem_of
        (fun x => S (String.length (json_encode (S lvl) x))) _ _ Hy) as Hy'.
      cbn beta in Hy'.
      destruct (IH y (S lvl) ltac:(lia)) as [Hdec|Hns]; [exact Hdec|].
      apply json_serializable_list in Hv.
      rewrite Forall_forall in Hv. rewrite (Hv y Hy) in Hns. discriminate. }
    change (json_encode lvl (PList (x :: l)))
      with ("[" +:+ newline_indent (S lvl)
            +:+ String.concat ("," +:+ newline_indent (S lvl))
                  (map (json_encode (S lvl)) (x :: l))
            +:+ newline_indent lvl +:+ "]").
    rewrite !append_assoc, append_cons, append_nil_l.
    rewrite (concat_enc_elements lvl (x :: l) tail) by done.
    rewrite parse_value_S. cbn zeta. eval_ord.
    rewrite skip_ws_newline_indent.
    destruct (enc_elements_skip_ws lvl (x :: l) tail ltac:(done) Hl)
      as (-> & c & s & Hcs & Hc).
    rewrite Hcs, Hc, <- Hcs.
    rewrite (parse_elements_enc lvl tail (x :: l)); [reflexivity|done|exact Hl|lia].
  - change (json_encode lvl (PDict d))
      with (match sorted_items (json_encode (S lvl) <$> d) with
            | [] => "{}"
            | items =>
                "{" +:+ newline_indent (S lvl)
                +:+ String.concat ("," +:+ newline_indent (S lvl))
                      (map json_item items)
                +:+ newline_indent lvl +:+ "}"
            end).
    rewrite sorted_items_fmap.
    destruct (sorted_items d) as [|kv L] eqn:HL.
    { apply sorted_items_nil in HL as ->. reflexivity. }
    pose proof (json_encode_dict_length lvl d) as Hlen.
    rewrite HL in Hlen. specialize (Hlen ltac:(done)).
    assert (HLdec : Forall (fun kv => decodes (S lvl) kv.2) (kv :: L)).
    { apply Forall_forall. intros [k y] Hy.
      pose proof (list_sum_elem_of
        (fun kv : string * pyval =>
           S (String.length (json_encode (S lvl) kv.2))) _ _ Hy) as Hy'.
      cbn beta in Hy'. cbn [snd] in *.
      destruct (IH y (S lvl) ltac:(lia)) as [Hdec|Hns]; [exact Hdec|].
      rewrite <- HL in Hy. apply sorted_items_elem_of in Hy.
      rewrite (json_serializable_dict d Hv k y Hy) in Hns. discriminate. }
    rewrite fmap_cons. cbn iota. rewrite <- fmap_cons.
    rewrite !append_assoc, append_cons, append_nil_l.
    rewrite (concat_enc_members lvl (kv :: L) tail) by done.
    rewrite parse_value_S. cbn zeta. eval_ord.
    rewrite skip_ws_newline_indent.
    change (dquote +:+ ?x) with (String (chr 34) x).
    rewrite skip_ws_head by reflexivity. eval_ord.
    rewrite (parse_members_enc lvl tail (kv :: L)); [|done|exact HLdec|lia].
    rewrite <- HL, foldl_insert_sorted_items. reflexivity.
Qed.

(** [json.loads(json.dumps(v, sort_keys=True, indent=4))] is [v], for
    every value that the encoder accepts. *)
Lemma json_loads_dumps (v : pyval) (text : string) :
  json_dumps v = Ok text -> json_loads text = Ok v.
Proof.
  unfold json_dumps. destruct (json_serializable v) eqn:Hv; [|discriminate].
  intros [= <-]. unfold json_loads.
  destruct (json_encode_head 0 v Hv) as (c & s & Hcs & Hc).
  rewrite Hcs, (value_head_skip_ws _ _ Hc), <- Hcs.
  destruct (parse_value_json_encode _ v 0 (Nat.le_refl _)) as [[_ Hdec]|Hns];
    [|congruence].
  specialize (Hdec "" (S (String.length (json_encode 0 v))) ltac:(lia) I).
  rewrite append_nil_r in Hdec. rewrite Hdec. reflexivity.
Qed.

Lemma json_serializable_dict_intro (d : gmap string pyval) :
  (forall k v, d !! k = Some v -> json_serializable v = true) ->
  json_serializable (PDict d) = true.
Proof.
  change (json_serializable (PDict d))
    with (map_fold (fun _ x acc => json_serializable x && acc) true d).
  rewrite map_fold_foldr. intros H.
  assert (HM : forall k v, (k, v) ∈ map_to_list d -> json_serializable v = true).
  { intros k v Hkv. apply (H k). now apply elem_of_map_to_list. }
  clear H. induction (map_to_list d) as [|[k v] M IH]; [reflexivity|].
  cbn. rewrite (HM k v) by (apply elem_of_cons; now left).
  apply IH. intros k' v' Hin. apply (HM k'). apply elem_of_cons. now right.
Qed.

Lemma json_serializable_insert (d : gmap string pyval) (k : string) (v : pyval) :
  json_serializable v = true -> json_serializable (PDict d) = true ->
  json_serializable (PDict (<[k := v]> d)) = true.
Proof.
  intros Hv Hd. apply json_serializable_dict_intro. intros k' v' Hk'.
  destruct (decide (k = k')) as [->|Hne].
  - rewrite lookup_insert_eq in Hk'. now injection Hk' as <-.
  - rewrite lookup_insert_ne in Hk' by exact Hne.
    now apply (json_serializable_dict d Hd k').
Qed.

Lemma json_dumps_Ok (v : pyval) :
  json_serializable v = true -> json_dumps v = Ok (json_encode 0 v).
Proof. intros Hv. unfold json_dumps. now rewrite Hv. Qed.

(** ** The validator *)

Section ValidatorProperties.
Context {RT : Runtime} {HM : HashMachine}.

Lemma getitem_Some (d : gmap string pyval) (k : string) (v : pyval) :
  d !! k = Some v -> getitem d k = Ok v.
Proof. intros H. unfold getitem. now rewrite H. Qed.

Lemma getitem_None (d : gmap string pyval) (k : string) :
  d !! k = None -> getitem d k = Raise (KeyError k).
Proof. intros H. unfold getitem. now rewrite H. Qed.

(** C5, amended: the keys that [Validator.__init__] requires are
    [hash_type], [encoding], [raw_bytes] and [security].  If one of them is
    missing, construction fails with a [KeyError] whose message names the
    first missing one, in this order, and the hash machine is not
    configured; otherwise the construction is that of the hash machine with
    the four values, so it succeeds only on a mapping that has the four
    keys. *)
Theorem Validator_init_keys (config : gmap string pyval) :
  match first_missing config with
  | Some k =>
      Validator_init config
      = Raise (KeyError
                 ("Hash-machine could not be configured: missing parameter: '"
                  +:+ k +:+ "'"))
      /\ k ∈ required_keys /\ config !! k = None
  | None =>
      exists hash_type encoding raw_bytes security,
        config !! "hash_type" = Some hash_type
        /\ config !! "encoding" = Some encoding
        /\ config !! "raw_bytes" = Some raw_bytes
        /\ config !! "security" = Some security
        /\ Validator_init config
           = HashMachine_init hash_type encoding raw_bytes security
  end
  /\ forall self, Validator_init config = Ok self ->
       forall k, k ∈ required_keys -> is_Some (config !! k).
Proof.
  assert (Hmain :
    match first_missing config with
    | Some k =>
        Validator_init config
        = Raise (KeyError
                   ("Hash-machine could not be configured: missing parameter: '"
                    +:+ k +:+ "'"))
        /\ k ∈ required_keys /\ config !! k = None
    | None =>
        exists hash_type encoding raw_bytes security,
          config !! "hash_type" = Some hash_type
          /\ config !! "encoding" = Some encoding
          /\ config !! "raw_bytes" = Some raw_bytes
          /\ config !! "security" = Some security
          /\ Validator_init config
             = HashMachine_init hash_type encoding raw_bytes security
    end).
  { unfold first_missing, required_keys, Validator_init, getitem. cbn [find].
    destruct (config !! "hash_type") as [ht|] eqn:H1;
      [|split; [reflexivity | split; [set_solver | exact H1]]].
    destruct (config !! "encoding") as [enc|] eqn:H2;
      [|split; [reflexivity | split; [set_solver | exact H2]]].
    destruct (config !! "raw_bytes") as [rb|] eqn:H3;
      [|split; [reflexivity | split; [set_solver | exact H3]]].
    destruct (config !! "security") as [sec|] eqn:H4;
      [|split; [reflexivity | split; [set_solver | exact H4]]].
    exists ht, enc, rb, sec. auto. }
  split; [exact Hmain|]. intros self Hself k Hk.
  destruct (first_missing config) as [k'|].
  - destruct Hmain as [Hraise _]. congruence.
  - destruct Hmain as (ht & enc & rb & sec & H1 & H2 & H3 & H4 & _).
    unfold required_keys in Hk.
    repeat (apply elem_of_cons in Hk as [->|Hk]; [eauto|]).
    now apply elem_of_nil in Hk.
Qed.

(** C1: on a proof whose header has a boolean [generation],
    [Validator.run] fails at once with the invalid-proof error when
    [generation] is false, whatever the body holds; with a path and a start
    index that [multi_hash] folds into a candidate root, it raises the
    invalid-proof error exactly when [generation] is false or the root
    differs from the target, and returns exactly when [generation] is true
    and the root is the target. *)
Theorem run_spec (self : machine) (target : bytes) (proof : Proof) (g : bool) :
  proof_header proof !! "generation" = Some (PBool g) ->
  (g = false -> run self target proof = Raise InvalidMerkleProof)
  /\ forall path start root,
       proof_body proof !! "proof_path" = Some path ->
       proof_body proof !! "proof_index" = Some start ->
       multi_hash self path start = Ok root ->
       (run self target proof = Raise InvalidMerkleProof
        <-> g = false \/ root <> target)
       /\ (run self target proof = Ok tt <-> g = true /\ root = target).
Proof.
  intros Hg. unfold run. rewrite (getitem_Some _ _ _ Hg), bind_Ok_l.
  cbn [truthy]. split.
  - intros ->. reflexivity.
  - intros path start root Hpath Hstart Hroot.
    destruct g; cbn [negb].
    + rewrite (getitem_Some _ _ _ Hpath), bind_Ok_l.
      rewrite (getitem_Some _ _ _ Hstart), bind_Ok_l, Hroot, bind_Ok_l.
      case_bool_decide as Hne.
      * split; split; try done.
        -- intros _. right. congruence.
        -- intros [_ ->]. done.
      * subst root. split; split; try done.
        intros [|]; done.
    + split; split; try done; [auto | intros [? _]; done].
Qed.

(** C7: with the validator constructed from
    [proof.get_validation_params()], [validateProof] returns [True] when
    [run] returns and [False] when [run] raises the invalid-proof error,
    and in both cases the proof it leaves has the returned boolean under
    [status] in its header, everything else unchanged; any other error of
    [run], and any error of the construction, propagates, the proof
    unchanged. *)
Theorem validateProof_spec (target : bytes) (proof : Proof) :
  (forall e, get_validation_params proof = Raise e ->
     validateProof target proof = Raise e)
  /\ (forall config e, get_validation_params proof = Ok config ->
     Validator_init config = Raise e -> validateProof target proof = Raise e)
  /\ (forall config validator,
     get_validation_params proof = Ok config ->
     Validator_init config = Ok validator ->
     (run validator target proof = Ok tt ->
        validateProof target proof = Ok (true, set_status proof true))
     /\ (run validator target proof = Raise InvalidMerkleProof ->
        validateProof target proof = Ok (false, set_status proof false))
     /\ (forall e, run validator target proof = Raise e ->
        e <> InvalidMerkleProof -> validateProof target proof = Raise e))
  /\ (forall result proof',
     validateProof target proof = Ok (result, proof') ->
     proof_header proof' !! "status" = Some (PBool result)
     /\ (forall k, k <> "status" ->
           proof_header proof' !! k = proof_header proof !! k)
     /\ proof_body proof' = proof_body proof).
Proof.
  unfold validateProof. split; [|split; [|split]].
  - intros e ->. reflexivity.
  - intros config e -> Hinit. now rewrite bind_Ok_l, Hinit.
  - intros config validator -> Hinit. rewrite bind_Ok_l, Hinit, bind_Ok_l.
    split; [|split].
    + intros ->. reflexivity.
    + intros ->. reflexivity.
    + intros e -> Hne. destruct e; done.
  - intros result proof' H.
    inv_bind H as config Hconfig. inv_bind H as validator Hinit.
    inv_bind H as result' Hrun. injection H as <- <-.
    cbn [set_status proof_header proof_body]. split; [|split].
    + apply lookup_insert_eq.
    + intros k Hk. now apply lookup_insert_ne.
    + reflexivity.
Qed.

End ValidatorProperties.

(** ** Receipts *)

Section ReceiptProperties.
Context {RT : Runtime} {HM : HashMachine}.

Lemma fresh_header_eq (w : World) :
  fresh_header w
  = (receipt_header (PStr (uuid1_str (uuid_calls w)))
       (PInt (time_int (clock_reads w))) (PStr (ctime (S (clock_reads w)))),
     {| uuid_calls := S (uuid_calls w);
        clock_reads := S (S (clock_reads w));
        files := files w |}).
Proof. reflexivity. Qed.

Lemma serialize_receipt (r : Receipt) (u t m pu pp res : pyval) :
  header r = receipt_header u t m ->
  body r = receipt_body pu pp res ->
  ReceiptSerializer_default r = Ok (receipt_document r).
Proof.
  intros Hh Hb. unfold ReceiptSerializer_default, receipt_document.
  rewrite Hh, Hb. reflexivity.
Qed.

Lemma receipt_document_serializable (r : Receipt) (u t m pu pp res : pyval) :
  header r = receipt_header u t m ->
  body r = receipt_body pu pp res ->
  json_serializable u = true -> json_serializable t = true ->
  json_serializable m = true -> json_serializable pu = true ->
  json_serializable pp = true -> json_serializable res = true ->
  json_serializable (receipt_document r) = true.
Proof.
  intros Hh Hb Hu Ht Hm Hpu Hpp Hres. unfold receipt_document.
  rewrite Hh, Hb. unfold receipt_header, receipt_body.
  repeat (apply json_serializable_insert; try assumption); reflexivity.
Qed.

Lemma json_encode_nonempty (v : pyval) :
  json_serializable v = true -> String.eqb (json_encode 0 v) "" = false.
Proof.
  intros Hv. destruct (json_encode_head 0 v Hv) as (c & s & -> & _).
  reflexivity.
Qed.

Lemma dict_get_Some (d : gmap string pyval) (k : string) (v : pyval) :
  d !! k = Some v -> dict_get d k = v.
Proof. intros H. unfold dict_get. now rewrite H. Qed.

Lemma dict_get_None (d : gmap string pyval) (k : string) :
  d !! k = None -> dict_get d k = PNone.
Proof. intros H. unfold dict_get. now rewrite H. Qed.

Lemma Receipt_init_keywords (pu pp res : pyval) (w : World) :
  Receipt_init []
    (<["proof_uuid" := pu]> (<["proof_provider" := pp]> (<["result" := res]> ∅)))
    w
  = Ok ({| header := (fresh_header w).1; body := receipt_body pu pp res |},
        (fresh_header w).2).
Proof. reflexivity. Qed.

(** C9: a receipt with the header and the body of the receipt format,
    made of values that JSON can carry, has a JSON text; constructing a
    receipt from this text, or from the dictionary that the text decodes
    to, gives the same header and the same body, with the same uuid and
    the same timestamp, and draws no uuid and reads no clock. *)
Theorem receipt_replication (r : Receipt) (u t m pu pp res : pyval) (w : World) :
  header r = receipt_header u t m ->
  body r = receipt_body pu pp res ->
  json_serializable u = true -> json_serializable t = true ->
  json_serializable m = true -> json_serializable pu = true ->
  json_serializable pp = true -> json_serializable res = true ->
  exists text d,
    toJsonString r = Ok text
    /\ json_loads text = Ok d
    /\ Receipt_init [] {["from_json" := PStr text]} w = Ok (r, w)
    /\ Receipt_init [] {["from_dict" := d]} w = Ok (r, w).
Proof.
  intros Hh Hb Hu Ht Hm Hpu Hpp Hres.
  pose proof (receipt_document_serializable r _ _ _ _ _ _ Hh Hb
                Hu Ht Hm Hpu Hpp Hres) as Hdoc.
  pose proof (json_dumps_Ok _ Hdoc) as Hdumps.
  pose proof (json_loads_dumps _ _ Hdumps) as Hloads.
  exists (json_encode 0 (receipt_document r)), (receipt_document r).
  split; [|split; [exact Hloads|split]].
  - unfold toJsonString.
    now rewrite (serialize_receipt r _ _ _ _ _ _ Hh Hb), bind_Ok_l.
  - set (text := json_encode 0 (receipt_document r)) in *.
    set (kwargs := {["from_json" := PStr text]} : gmap string pyval).
    assert (Hd : kwargs !! "from_dict" = None)
      by (apply lookup_singleton_ne; discriminate).
    assert (Hj : kwargs !! "from_json" = Some (PStr text))
      by apply lookup_singleton_eq.
    unfold Receipt_init.
    rewrite (dict_get_None _ _ Hd), (dict_get_Some _ _ _ Hj).
    cbn [truthy]. unfold text at 1.
    rewrite (json_encode_nonempty _ Hdoc). cbn [negb].
    rewrite (getitem_Some _ _ _ Hj), bind_Ok_l.
    rewrite Hloads, bind_Ok_l. unfold receipt_document, subscript.
    rewrite (getitem_Some _ "header" (header r)) by apply lookup_insert_eq.
    rewrite bind_Ok_l.
    rewrite (getitem_Some _ "body" (body r))
      by (rewrite lookup_insert_ne by discriminate; apply lookup_insert_eq).
    rewrite bind_Ok_l. now destruct r.
  - set (kwargs := {["from_dict" := receipt_document r]} : gmap string pyval).
    assert (Hd : kwargs !! "from_dict" = Some (receipt_document r))
      by apply lookup_singleton_eq.
    unfold Receipt_init. rewrite (dict_get_Some _ _ _ Hd).
    assert (truthy (receipt_document r) = true) as ->.
    { unfold receipt_document. cbn [truthy]. apply negb_true_iff.
      apply bool_decide_eq_false_2, insert_non_empty. }
    rewrite (getitem_Some _ _ _ Hd), bind_Ok_l.
    unfold receipt_document, subscript.
    rewrite (getitem_Some _ "header" (header r)) by apply lookup_insert_eq.
    rewrite bind_Ok_l.
    rewrite (getitem_Some _ "body" (body r))
      by (rewrite lookup_insert_ne by discriminate; apply lookup_insert_eq).
    rewrite bind_Ok_l. now destruct r.
Qed.

(** C8: when [validateProof] returns a boolean and the header of the proof
    has a [uuid] and a [provider], [validationReceipt] returns a new
    receipt whose body holds them and that boolean.  Without a directory
    ([None], or an empty path) no file is touched.  With a directory it
    opens [os.path.join(dirpath, uuid + '.json')], with the uuid of the
    receipt, and writes there, and nowhere else, the JSON text of the
    serialized receipt, keys sorted, indented by four spaces; an error of
    [open] propagates. *)
Theorem validationReceipt_spec (target : bytes) (proof : Proof) (dirpath : pyval)
    (w : World) (valid : bool) (proof' : Proof) (u pv : string) :
  validateProof target proof = Ok (valid, proof') ->
  proof_header proof' !! "uuid" = Some (PStr u) ->
  proof_header proof' !! "provider" = Some (PStr pv) ->
  let receipt :=
    {| header := (fresh_header w).1;
       body := receipt_body (PStr u) (PStr pv) (PBool valid) |} in
  let w' := (fresh_header w).2 in
  (truthy dirpath = false ->
     validationReceipt target proof dirpath w = Ok (receipt, proof', w')
     /\ files w' = files w)
  /\ (forall d, dirpath = PStr d -> d <> "" ->
      let name := uuid1_str (uuid_calls w) +:+ ".json" in
      let path := os_path_join d name in
      let text := json_encode 0 (receipt_document receipt) in
      serialize receipt = Ok (receipt_document receipt)
      /\ json_dumps (receipt_document receipt) = Ok text
      /\ (String.prefix "/" name = false ->
          String.prefix "/" (String.rev d) = false ->
          path = d +:+ "/" +:+ name)
      /\ match open_w_error path with
         | Some e => validationReceipt target proof dirpath w = Raise e
         | None =>
             validationReceipt target proof dirpath w
             = Ok (receipt, proof',
                   {| uuid_calls := uuid_calls w';
                      clock_reads := clock_reads w';
                      files := <[path := text]> (files w) |})
         end).
Proof.
  intros Hval Hu Hpv receipt w'.
  assert (Hser : serialize receipt = Ok (receipt_document receipt)).
  { exact (serialize_receipt receipt
             (PStr (uuid1_str (uuid_calls w))) (PInt (time_int (clock_reads w)))
             (PStr (ctime (S (clock_reads w))))
             (PStr u) (PStr pv) (PBool valid) eq_refl eq_refl). }
  assert (Hdoc : json_serializable (receipt_document receipt) = true).
  { exact (receipt_document_serializable receipt
             (PStr (uuid1_str (uuid_calls w))) (PInt (time_int (clock_reads w)))
             (PStr (ctime (S (clock_reads w))))
             (PStr u) (PStr pv) (PBool valid) eq_refl eq_refl
             eq_refl eq_refl eq_refl eq_refl eq_refl eq_refl). }
  assert (Hstart :
    validationReceipt target proof dirpath w
    = (if truthy dirpath then
         uuid ← subscript (header receipt) "uuid";
         name ← match py_str uuid with
                 | Some s => Ok (s +:+ ".json")
                 | None => Raise (OtherError "str() of a container")
                 end;
         path ← match dirpath with
                 | PStr d => Ok (os_path_join d name)
                 | _ => Raise (TypeError "expected str, bytes or os.PathLike object")
                 end;
         w ← write_json path (serialize receipt) w';
         Ok (receipt, proof', w)
       else Ok (receipt, proof', w'))).
  { unfold validationReceipt. rewrite Hval, bind_Ok_l. cbn match.
    rewrite (getitem_Some _ _ _ Hu), bind_Ok_l.
    rewrite (getitem_Some _ _ _ Hpv), bind_Ok_l.
    rewrite Receipt_init_keywords, bind_Ok_l. reflexivity. }
  split.
  - intros Hfalse. rewrite Hstart, Hfalse. split; reflexivity.
  - intros d -> Hd name path text.
    split; [exact Hser|]. split; [now apply json_dumps_Ok|]. split.
    { intros Hname Hrev. unfold path, os_path_join. rewrite Hname, Hrev.
      assert (String.eqb d "" = false) as -> by now apply String.eqb_neq.
      reflexivity. }
    rewrite Hstart. cbn [truthy].
    assert (String.eqb d "" = false) as -> by now apply String.eqb_neq.
    cbn [negb]. fold name. fold path.
    change (subscript (header receipt) "uuid")
      with (Ok (PStr (uuid1_str (uuid_calls w))) : result pyval).
    rewrite bind_Ok_l. cbn [py_str]. rewrite bind_Ok_l. fold name.
    rewrite bind_Ok_l. fold path. unfold write_json.
    destruct (open_w_error path) as [e|]; [reflexivity|].
    rewrite Hser, bind_Ok_l, (json_dumps_Ok _ Hdoc), !bind_Ok_l.
    reflexivity.
Qed.

End ReceiptProperties.

(** * The functions on concrete inputs *)

Lemma byte_of_nat_ascii (c : ascii) :
  is_ascii_char c = true -> Sample.byte_of_nat (ord c) = byte_of_ascii c.
Proof. each_char c; (discriminate || reflexivity). Qed.

Lemma sample_utf_8_ascii (text : string) :
  is_ascii_text text = true ->
  Sample.encode "utf_8" text = Ok (bytes_of_string text).
Proof.
  intros Htext. change (Sample.encode "utf_8" text)
    with (Ok (Sample.flat_map_string Sample.utf_8_char text) : result bytes).
  f_equal. induction text as [|c text IH]; [reflexivity|].
  unfold is_ascii_text in Htext. cbn [string_forall] in Htext.
  apply andb_prop in Htext as [Hc Htext].
  cbn [Sample.flat_map_string bytes_of_string]. rewrite (IH Htext).
  unfold Sample.utf_8_char. unfold is_ascii_char in Hc. rewrite Hc.
  cbn [app]. f_equal. now apply byte_of_nat_ascii.
Qed.

Lemma sha256_alg_laws : HashAlgLaws sha256_alg.
Proof.
  split; cbn; intros.
  - apply app_nil_r.
  - symmetry. apply app_assoc.
Qed.

Lemma sample_runtime_laws : RuntimeLaws Sample.runtime.
Proof.
  split. intros name H. cbn. destruct (String.eqb name "sha256"); [|discriminate].
  intros [= <-]. exact sha256_alg_laws.
Qed.

Section Examples.
#[local] Existing Instance Sample.runtime.
#[local] Existing Instance Sample.constants.
#[local] Existing Instance sample_runtime_laws.

#[local] Existing Instance sample_machine.

(** The digests that Python gives for the same calls. *)
Example utf_8_engine_digests :
  HashEngine_init "sha256" "utf-8" true = Ok utf_8_engine
  /\ hash_entry utf_8_engine (PStr "a") = Ok hash_a
  /\ hash_entry utf_8_engine (PStr "b") = Ok hash_b
  /\ hash_pair utf_8_engine hash_a hash_b = Ok hash_ab.
Proof. repeat split; vm_compute; reflexivity. Qed.

(** The algorithm is kept as provided: an engine constructed from a name
    that only its normalized form makes supported cannot hash. *)
Example algorithm_kept_as_provided :
  exists self,
    HashEngine_init "SHA256" "utf-8" true = Ok self
    /\ algorithm self = "SHA256"
    /\ hash_entry self (PBytes [])
       = Raise (AttributeError "module 'hashlib' has no attribute 'SHA256'").
Proof. eexists. repeat split; vm_compute; reflexivity. Qed.

(** C2, as stated, fails: with the supported encoding [utf_16] the prefix
    of a leaf is the four bytes of the byte order mark and of U+0000, and
    the digest is not that of [0x00 + data]. *)
Lemma hash_entry_prefix_counterexample :
  HashEngine_init "sha256" "utf_16" true = Ok utf_16_engine
  /\ prefx00 utf_16_engine <> [Byte.x00]
  /\ hash_entry utf_16_engine (PBytes [])
     <> digest_oneshot utf_16_engine ([Byte.x00] ++ []).
Proof.
  split; [vm_compute; reflexivity|]. split; [discriminate|].
  vm_compute. discriminate.
Qed.

(** C2, amended, on the leaf ["a"] of the [utf-8] engine. *)
Lemma hash_entry_spec_witness :
  hash_entry utf_8_engine (PStr "a")
  = str_encode "utf_8"
      (hexdigest sha256_alg (h_update sha256_alg (h_new sha256_alg)
                               ([Byte.x00] ++ bytes_of_string "a")))
  /\ string_forall is_lower_hex
       (hexdigest sha256_alg (h_update sha256_alg (h_new sha256_alg)
                                ([Byte.x00] ++ bytes_of_string "a"))) = true.
Proof.
  assert (Hinit : HashEngine_init "sha256" "utf-8" true = Ok utf_8_engine)
    by (vm_compute; reflexivity).
  destruct (hash_entry_spec "sha256" "utf-8" true utf_8_engine (PStr "a") Hinit)
    as (_ & _ & _ & H).
  exact (H sha256_alg (bytes_of_string "a") eq_refl eq_refl).
Defined.

(** C3, as stated, fails: with the supported encoding [utf_16] the prefix
    of an operand is four bytes, and the digest is not that of
    [0x01 + left + 0x01 + right]. *)
Lemma hash_pair_prefix_counterexample :
  HashEngine_init "sha256" "utf_16" true = Ok utf_16_engine
  /\ prefx01 utf_16_engine <> [Byte.x01]
  /\ hash_pair utf_16_engine hash_a hash_b
     <> digest_oneshot utf_16_engine
          ([Byte.x01] ++ hash_a ++ [Byte.x01] ++ hash_b).
Proof.
  split; [vm_compute; reflexivity|]. split; [discriminate|].
  vm_compute. discriminate.
Qed.

(** C3, amended, with SHA-256 and the [utf-8] codec. *)
Lemma hash_pair_spec_witness :
  exists self da db,
    HashEngine_init "sha256" "utf-8" true = Ok self
    /\ prefx01 self = [Byte.x01]
    /\ hash_entry self (PStr "a") = Ok da
    /\ hash_entry self (PStr "b") = Ok db
    /\ hash_pair self da db
       = Ok (bytes_of_string
               (hexdigest sha256_alg
                  (h_update sha256_alg (h_new sha256_alg)
                     ([Byte.x01] ++ da ++ [Byte.x01] ++ db)))).
Proof.
  refine (proj2 hash_pair_spec sha256_alg _ _ eq_refl sample_utf_8_ascii).
  - in_list.
  - in_list.
Defined.

(** C4 on a buffer of two full chunks and on the empty buffer. *)
Lemma consume_chunking_witness :
  consume utf_8_engine (repeat Byte.x61 2048)
  = digest_oneshot utf_8_engine (repeat Byte.x61 2048)
  /\ consume utf_8_engine [] = digest_oneshot utf_8_engine [].
Proof.
  split.
  - exact (proj1 (consume_chunking_invisible utf_8_engine (repeat Byte.x61 2048))).
  - exact (proj1 (consume_chunking_invisible utf_8_engine [])).
Defined.

(** C10 on the engine constructed from [sha256], [utf-8], security off. *)
Lemma no_security_witness :
  prefx00 plain_engine = [] /\ prefx01 plain_engine = []
  /\ forall left right : bytes,
       hash_pair plain_engine left right
       = digest_oneshot plain_engine (left ++ right)
       /\ hash_pair plain_engine left right
          = hash_entry plain_engine (PBytes (left ++ right)).
Proof.
  apply (no_security_no_separation "sha256" "utf-8" plain_engine).
  vm_compute. reflexivity.
Defined.

(** C6, as stated, fails: ["SHA256"] and ["UTF-8"] are in neither supported
    set, the construction succeeds, and the engine holds the encoding
    replaced by a supported value. *)
Lemma HashEngine_init_counterexample :
  ("SHA256" ∉ ALGORITHMS) /\ ("UTF-8" ∉ ENCODINGS)
  /\ HashEngine_init "SHA256" "UTF-8" false
     = Ok {| algorithm := "SHA256"; encoding := "utf_8"; security := false;
             prefx00 := []; prefx01 := [] |}
  /\ ("utf_8" ∈ ENCODINGS).
Proof.
  split; [not_in_list|]. split; [not_in_list|].
  split; [vm_compute; reflexivity | in_list].
Qed.

(** C1 on the sample proof, with its root and with another target, and on
    the failed proof. *)
Lemma run_spec_witness :
  run sample_validator hash_ab sample_proof = Ok tt
  /\ run sample_validator hash_a sample_proof = Raise InvalidMerkleProof
  /\ run sample_validator hash_ab failed_proof = Raise InvalidMerkleProof.
Proof.
  assert (Hg : proof_header sample_proof !! "generation" = Some (PBool true))
    by (vm_compute; reflexivity).
  assert (Hroot :
    multi_hash sample_validator
      (PList [PList [PInt 1; PBytes hash_a]; PList [PInt 1; PBytes hash_b]])
      (PInt 0) = Ok hash_ab) by (vm_compute; reflexivity).
  split; [|split].
  - apply (proj2 (run_spec sample_validator hash_ab sample_proof true Hg) _ _ _
             eq_refl eq_refl Hroot). now split.
  - apply (proj2 (run_spec sample_validator hash_a sample_proof true Hg) _ _ _
             eq_refl eq_refl Hroot). right. discriminate.
  - apply (proj1 (run_spec sample_validator hash_ab failed_proof false eq_refl)).
    reflexivity.
Defined.

(** C5, as stated, fails: a configuration without the key [algorithm]
    constructs a validator, and one with the four keys of the claim does
    not: the key that the constructor reads is [hash_type]. *)
Lemma Validator_init_counterexample :
  config_without_algorithm !! "algorithm" = None
  /\ Validator_init config_without_algorithm = Ok sample_validator
  /\ Validator_init config_with_algorithm
     = Raise (KeyError
         "Hash-machine could not be configured: missing parameter: 'hash_type'").
Proof. repeat split; vm_compute; reflexivity. Qed.

(** C7 on the sample proof, with its root and with another target. *)
Lemma validateProof_spec_witness :
  validateProof hash_ab sample_proof = Ok (true, set_status sample_proof true)
  /\ validateProof hash_a sample_proof = Ok (false, set_status sample_proof false).
Proof.
  assert (Hconfig : get_validation_params sample_proof = Ok config_without_algorithm)
    by (vm_compute; reflexivity).
  assert (Hinit : Validator_init config_without_algorithm = Ok sample_validator)
    by (vm_compute; reflexivity).
  split.
  - destruct (validateProof_spec hash_ab sample_proof) as (_ & _ & H & _).
    apply (proj1 (H _ _ Hconfig Hinit)). vm_compute. reflexivity.
  - destruct (validateProof_spec hash_a sample_proof) as (_ & _ & H & _).
    apply (proj1 (proj2 (H _ _ Hconfig Hinit))). vm_compute. reflexivity.
Defined.

(** C8 on the sample proof, without a directory and with the directory
    [receipts]. *)
Lemma validationReceipt_witness :
  validationReceipt hash_ab sample_proof PNone world0
  = Ok (sample_receipt, set_status sample_proof true,
        {| uuid_calls := 1; clock_reads := 2; files := ∅ |})
  /\ validationReceipt hash_ab sample_proof (PStr "receipts") world0
     = Ok (sample_receipt, set_status sample_proof true,
           {| uuid_calls := 1; clock_reads := 2;
              files :=
                <["receipts/6fa459ea-ee8a-11ee-a506-000000000000.json" :=
                    json_encode 0 (receipt_document sample_receipt)]> ∅ |}).
Proof.
  assert (Hval : validateProof hash_ab sample_proof
                 = Ok (true, set_status sample_proof true))
    by (vm_compute; reflexivity).
  destruct (validationReceipt_spec hash_ab sample_proof PNone world0 true
              (set_status sample_proof true)
              "0ac1d7f2-ee8a-11ee-a506-0242ac120002"
              "f4c3b00c-ee89-11ee-a506-0242ac120002"
              Hval eq_refl eq_refl) as [Hnone _].
  destruct (validationReceipt_spec hash_ab sample_proof (PStr "receipts") world0
              true (set_status sample_proof true)
              "0ac1d7f2-ee8a-11ee-a506-0242ac120002"
              "f4c3b00c-ee89-11ee-a506-0242ac120002"
              Hval eq_refl eq_refl) as [_ Hdir].
  split.
  - exact (proj1 (Hnone eq_refl)).
  - destruct (Hdir "receipts" eq_refl ltac:(discriminate)) as (_ & _ & _ & H).
    exact H.
Defined.

(** C9 on the receipt of the sample proof. *)
Lemma receipt_replication_witness :
  exists text d,
    toJsonString sample_receipt = Ok text
    /\ json_loads text = Ok d
    /\ Receipt_init [] {["from_json" := PStr text]} world0
       = Ok (sample_receipt, world0)
    /\ Receipt_init [] {["from_dict" := d]} world0 = Ok (sample_receipt, world0).
Proof.
  exact (receipt_replication sample_receipt _ _ _ _ _ _ world0
           eq_refl eq_refl eq_refl eq_refl eq_refl eq_refl eq_refl eq_refl).
Defined.

(** The text of the receipt file. *)
Example sample_receipt_text :
  toJsonString sample_receipt = Ok (json_encode 0 (receipt_document sample_receipt))
  /\ String.length (json_encode 0 (receipt_document sample_receipt)) = 342
  /\ json_loads (json_encode 0 (receipt_document sample_receipt))
     = Ok (receipt_document sample_receipt).
Proof. repeat split; vm_compute; reflexivity. Qed.

End Examples.

(** * Further properties *)

(** ** The calls of [update] in [consume] *)

Lemma chunksize_pos : 0 < chunksize.
Proof. apply Nat.lt_0_succ. Qed.

Lemma length_drop_chunk (x : Byte.byte) (l : bytes) :
  length (drop chunksize (x :: l)) <= length l.
Proof.
  rewrite length_drop. pose proof chunksize_pos as Hc. cbn [length].
  generalize dependent chunksize. intros. lia.
Qed.

Lemma chunks_of_fuel (f1 : nat) : forall f2 (l : bytes),
  length l <= f1 -> length l <= f2 -> chunks_of f1 l = chunks_of f2 l.
Proof.
  induction f1 as [|f1 IH]; intros f2 l H1 H2.
  - destruct l; [|cbn [length] in H1; lia]. now destruct f2.
  - destruct l as [|x l]; [now destruct f2|].
    destruct f2 as [|f2]; [cbn [length] in H2; lia|].
    cbn [chunks_of]. f_equal. pose proof (length_drop_chunk x l).
    cbn [length] in H1, H2. apply IH; lia.
Qed.

Lemma chunks_nil : chunks [] = [].
Proof. reflexivity. Qed.

Lemma chunks_cons (l : bytes) :
  l <> [] -> chunks l = take chunksize l :: chunks (drop chunksize l).
Proof.
  destruct l as [|x l]; [done|]. intros _. unfold chunks at 1.
  cbn [length chunks_of]. f_equal.
  apply chunks_of_fuel; [apply length_drop_chunk | done].
Qed.

(** Induction along the chunks of a buffer. *)
Lemma chunks_ind (P : bytes -> list bytes -> Prop) :
  P [] [] ->
  (forall l, l <> [] ->
     P (drop chunksize l) (chunks (drop chunksize l)) ->
     P l (take chunksize l :: chunks (drop chunksize l))) ->
  forall l, P l (chunks l).
Proof.
  intros Hnil Hcons l. remember (length l) as n eqn:Hn.
  revert l Hn. induction n as [n IH] using lt_wf_ind. intros l ->.
  destruct l as [|x l]; [exact Hnil|].
  rewrite chunks_cons by done. apply Hcons; [done|].
  apply (IH (length (drop chunksize (x :: l)))); [|done].
  pose proof (length_drop_chunk x l). cbn [length]. lia.
Qed.

Lemma concat_chunks (l : bytes) : concat (chunks l) = l.
Proof.
  apply (chunks_ind (fun l cs => concat cs = l)); [done|].
  intros l' _ IH. cbn [concat]. rewrite IH. apply take_drop.
Qed.

Lemma chunks_bounds (l : bytes) :
  Forall (fun c : bytes => 0 < length c /\ length c <= chunksize) (chunks l).
Proof.
  apply (chunks_ind (fun _ cs =>
    Forall (fun c : bytes => 0 < length c /\ length c <= chunksize) cs));
    [constructor|].
  intros l' Hl IH. constructor; [|exact IH].
  rewrite length_take. pose proof chunksize_pos.
  destruct l'; [done|]. cbn [length]. generalize dependent chunksize.
  intros. lia.
Qed.

Lemma chunks_count (l : bytes) :
  length l <= chunksize * length (chunks l)
  /\ chunksize * length (chunks l) < length l + chunksize.
Proof.
  apply (chunks_ind (fun l cs =>
    length l <= chunksize * length cs
    /\ chunksize * length cs < length l + chunksize)).
  - pose proof chunksize_pos. cbn [length]. rewrite Nat.mul_0_r. lia.
  - intros l' Hl [IH1 IH2]. cbn [length]. rewrite Nat.mul_succ_r.
    rewrite length_drop in IH1, IH2.
    destruct (drop chunksize l') as [|y d] eqn:Hd.
    + apply (f_equal length) in Hd. rewrite length_drop in Hd.
      cbn [length] in *. rewrite Nat.mul_0_r in *.
      destruct l'; [done|]. cbn [length] in *.
      generalize dependent chunksize. intros. lia.
    + apply (f_equal length) in Hd. rewrite length_drop in Hd.
      cbn [length] in Hd. generalize dependent chunksize. intros. lia.
Qed.

Section UpdateTrace.
Context {RT : Runtime}.

(** With fuel above the number of bytes left the loop ends, having passed
    to [update] the chunks of what was left, one after the other. *)
Lemma consume_loop_chunks (H : HashAlg) (buffer : bytes) :
  forall fuel offset (hasher : h_state H),
    length (drop offset buffer) < fuel ->
    consume_loop fuel H hasher buffer offset (take chunksize (drop offset buffer))
    = Some (fold_left (h_update H) (chunks (drop offset buffer)) hasher).
Proof.
  induction fuel as [|fuel IH]; intros offset hasher Hfuel; [lia|].
  destruct (take chunksize (drop offset buffer)) as [|b chunk] eqn:Hchunk.
  - apply take_chunk_nil in Hchunk. now rewrite Hchunk.
  - assert (Hd : drop offset buffer <> []).
    { intros Hd. now rewrite Hd in Hchunk. }
    cbn [consume_loop]. rewrite slice_chunk, IH.
    + rewrite (chunks_cons _ Hd), Hchunk, drop_drop. reflexivity.
    + rewrite <- drop_drop, length_drop.
      assert (0 < length (drop offset buffer)).
      { destruct (drop offset buffer); [done | cbn; lia]. }
      pose proof chunksize_pos.
      generalize dependent chunksize. intros. lia.
Qed.

Lemma consume_trace (self : HashEngine) (buffer : bytes) :
  consume self buffer
  = (H ← hashlib (algorithm self);
     str_encode (encoding self)
       (hexdigest H (fold_left (h_update H) (chunks buffer) (h_new H)))).
Proof.
  unfold consume. destruct (hashlib (algorithm self)) as [H|e]; [|reflexivity].
  rewrite !bind_Ok_l, slice_first.
  rewrite (consume_loop_chunks H buffer (consume_fuel buffer) 0 (h_new H)).
  - now rewrite drop_0.
  - unfold consume_fuel. rewrite drop_0. lia.
Qed.

(** X1: whatever the hash object does with its input, [consume] ends, and
    it has called [update] on the successive chunks of the buffer, in
    order and nothing else: the chunks concatenate to the buffer, each has
    between 1 and 1024 bytes (no call with an empty chunk, so no call at
    all for the empty buffer), and their number is the length of the buffer
    divided by 1024, rounded up. *)
Theorem consume_update_trace (self : HashEngine) (buffer : bytes) :
  consume self buffer
  = (H ← hashlib (algorithm self);
     str_encode (encoding self)
       (hexdigest H (fold_left (h_update H) (chunks buffer) (h_new H))))
  /\ concat (chunks buffer) = buffer
  /\ Forall (fun c : bytes => 0 < length c /\ length c <= chunksize)
       (chunks buffer)
  /\ length buffer <= chunksize * length (chunks buffer)
  /\ chunksize * length (chunks buffer) < length buffer + chunksize.
Proof.
  split; [apply consume_trace|]. split; [apply concat_chunks|].
  split; [apply chunks_bounds | apply chunks_count].
Qed.

End UpdateTrace.

(** ** Operands and digests *)

Lemma app_separator_inj (b : Byte.byte) (l l' r r' : bytes) :
  b ∉ l -> b ∉ l' -> l ++ b :: r = l' ++ b :: r' -> l = l' /\ r = r'.
Proof.
  revert l'. induction l as [|x l IH]; intros [|x' l'] Hl Hl' Heq.
  - now injection Heq.
  - injection Heq as -> _. exfalso. apply Hl'. apply elem_of_cons. now left.
  - injection Heq as -> _. exfalso. apply Hl. apply elem_of_cons. now left.
  - injection Heq as -> Heq.
    destruct (IH l') as [-> ->]; [| |exact Heq|done].
    + intros Hin. apply Hl. apply elem_of_cons. now right.
    + intros Hin. apply Hl'. apply elem_of_cons. now right.
Qed.

Lemma bytes_of_string_forall (p : ascii -> bool) (s : string) :
  string_forall p s = true ->
  Forall (fun b => p (ascii_of_byte b) = true) (bytes_of_string s).
Proof.
  induction s as [|c s IH]; cbn [string_forall bytes_of_string]; [constructor|].
  intros [Hc Hs]%andb_prop. constructor; [|now apply IH].
  now rewrite ascii_of_byte_of_ascii.
Qed.

Lemma bytes_of_string_length (s : string) :
  length (bytes_of_string s) = String.length s.
Proof. induction s as [|c s IH]; cbn; [done | now rewrite IH]. Qed.

Section Operands.
Context {RT : Runtime} {CS : Constants}.

(** X2: [hash_pair] does not separate its operands from each other when
    they are arbitrary bytes: moving the boundary across an occurrence of
    the prefix gives the same buffer, hence the same outcome.  The prefix
    stands before each operand and nothing records their lengths. *)
Theorem hash_pair_boundary (self : HashEngine) (left middle right : bytes) :
  hash_pair self (left ++ prefx01 self ++ middle) right
  = hash_pair self left (middle ++ prefx01 self ++ right).
Proof. unfold hash_pair. now rewrite <- !app_assoc. Qed.

(** X3: when the prefix of internal nodes is a single byte that occurs
    in neither left operand, the buffer that [hash_pair] digests
    determines both operands: two pairs with the same buffer are equal. *)
Theorem pair_buffer_unambiguous (self : HashEngine) (b : Byte.byte)
    (left right left' right' : bytes) :
  prefx01 self = [b] -> b ∉ left -> b ∉ left' ->
  pair_buffer self left right = pair_buffer self left' right' ->
  hash_pair self left right = consume self (pair_buffer self left right)
  /\ left = left' /\ right = right'.
Proof.
  intros Hp Hl Hl' Heq. split; [reflexivity|].
  unfold pair_buffer in Heq. rewrite Hp in Heq. cbn [app] in Heq.
  injection Heq as Heq. now apply (app_separator_inj b).
Qed.

(** X4: under an encoding that writes ASCII text as the bytes of its code
    points, every result of [consume] (so of [hash_entry] and of
    [hash_pair]) is made of digits of lowercase hexadecimal text, two for
    each byte of the digest: neither 0x00 nor 0x01 occurs in it. *)
Theorem consume_hex_bytes (self : HashEngine) (buffer out : bytes) :
  (forall text, is_ascii_text text = true ->
     str_encode (encoding self) text = Ok (bytes_of_string text)) ->
  consume self buffer = Ok out ->
  (exists H st, hashlib (algorithm self) = Ok H
     /\ out = bytes_of_string (hexdigest H st)
     /\ length out = 2 * length (h_digest H st))
  /\ Forall (fun b => is_hex_byte b = true) out
  /\ (Byte.x00 ∉ out) /\ (Byte.x01 ∉ out).
Proof.
  intros Henc Hout. rewrite consume_trace in Hout.
  inv_bind Hout as H Halg.
  rewrite Henc in Hout by apply hexlify_ascii. injection Hout as <-.
  assert (Hhex : Forall (fun b => is_hex_byte b = true)
            (bytes_of_string
               (hexdigest H (fold_left (h_update H) (chunks buffer) (h_new H))))).
  { apply (bytes_of_string_forall is_lower_hex), hexlify_lower. }
  split; [|split; [exact Hhex|split]].
  - eexists H, _. split; [exact Halg|]. split; [reflexivity|].
    unfold hexdigest. now rewrite bytes_of_string_length, hexlify_length.
  - intros Hin. rewrite Forall_forall in Hhex. now apply Hhex in Hin.
  - intros Hin. rewrite Forall_forall in Hhex. now apply Hhex in Hin.
Qed.

End Operands.

(** ** Normalized parameters *)

Lemma normalize_cons (c : ascii) (s : string) :
  normalize (String c s)
  = String (if Ascii.eqb (lower_char c) "-" then "_"%char else lower_char c)
      (normalize s).
Proof. reflexivity. Qed.

Lemma normalize_char_idempotent (c : ascii) :
  let f c := if Ascii.eqb (lower_char c) "-" then "_"%char else lower_char c in
  f (f c) = f c.
Proof. each_char c; reflexivity. Qed.

Lemma normalize_idempotent (s : string) : normalize (normalize s) = normalize s.
Proof.
  induction s as [|c s IH]; [reflexivity|].
  rewrite !normalize_cons, IH. f_equal. apply normalize_char_idempotent.
Qed.

Section NormalForms.
Context {RT : Runtime} {CS : Constants}.

(** X5: the names that [validate_parameters] returns are normal forms:
    they are the normalized arguments, they are supported, and validating
    them again returns them unchanged.  An engine built from the
    normalized names is the engine built from the names as provided,
    except for the attribute [algorithm], which holds in each case the
    name that was passed to the constructor. *)
Theorem validate_parameters_normal_form (a e a' e' : string) :
  validate_parameters a e = Ok (a', e') ->
  a' = normalize a /\ e' = normalize e
  /\ a' ∈ ALGORITHMS /\ e' ∈ ENCODINGS
  /\ validate_parameters a' e' = Ok (a', e')
  /\ forall sec self,
       HashEngine_init a e sec = Ok self ->
       HashEngine_init a' e' sec
       = Ok {| algorithm := a'; encoding := encoding self;
               security := security self;
               prefx00 := prefx00 self; prefx01 := prefx01 self |}.
Proof.
  unfold validate_parameters. intros Hv.
  inv_bind Hv as na Ha. apply validate_parameter_inv in Ha as [-> Ha].
  inv_bind Hv as ne He. apply validate_parameter_inv in He as [-> He].
  injection Hv as <- <-.
  assert (Hagain : validate_parameters (normalize a) (normalize e)
                   = Ok (normalize a, normalize e)).
  { unfold validate_parameters.
    rewrite !validate_parameter_Ok by now rewrite normalize_idempotent.
    now rewrite !normalize_idempotent. }
  split; [reflexivity|]. split; [reflexivity|]. split; [exact Ha|].
  split; [exact He|]. split; [exact Hagain|].
  intros sec self Hinit.
  apply HashEngine_init_inv in Hinit as (_ & _ & _ & Henc & Hsec & H0 & H1).
  unfold HashEngine_init. rewrite Hagain, bind_Ok_l. cbn match.
  rewrite H0, bind_Ok_l, H1, bind_Ok_l. now rewrite Henc, Hsec.
Qed.

End NormalForms.

(** ** What the validator reads *)

Section ValidatorReads.
Context {RT : Runtime} {HM : HashMachine}.

(** X6: [run] returns exactly when the header holds a truthy
    [generation], the body holds [proof_path] and [proof_index], and
    [multi_hash] of these two is the target.  A falsy [generation] of any
    type ([False], [None], [0], an empty text or container) is an invalid
    proof, whatever the body holds, and a header without [generation] is a
    [KeyError]. *)
Theorem run_accepts (self : machine) (target : bytes) (proof : Proof) :
  (run self target proof = Ok tt <->
   exists g p i,
     proof_header proof !! "generation" = Some g /\ truthy g = true
     /\ proof_body proof !! "proof_path" = Some p
     /\ proof_body proof !! "proof_index" = Some i
     /\ multi_hash self p i = Ok target)
  /\ (forall g, proof_header proof !! "generation" = Some g ->
       truthy g = false -> run self target proof = Raise InvalidMerkleProof)
  /\ (proof_header proof !! "generation" = None ->
       run self target proof = Raise (KeyError "generation")).
Proof.
  split; [split|split].
  - unfold run. intros Hrun.
    inv_bind Hrun as g Hg. unfold getitem in Hg.
    destruct (proof_header proof !! "generation") as [g'|]; [|discriminate].
    injection Hg as ->.
    destruct (truthy g) eqn:Ht; [|discriminate]. cbn [negb] in Hrun.
    inv_bind Hrun as p Hp. unfold getitem in Hp.
    destruct (proof_body proof !! "proof_path") as [p'|]; [|discriminate].
    injection Hp as ->.
    inv_bind Hrun as i Hi. unfold getitem in Hi.
    destruct (proof_body proof !! "proof_index") as [i'|]; [|discriminate].
    injection Hi as ->.
    inv_bind Hrun as root Hroot.
    case_bool_decide as Hne; [discriminate|].
    exists g, p, i. split; [reflexivity|]. split; [exact Ht|].
    split; [reflexivity|]. split; [reflexivity|].
    rewrite Hroot. f_equal. symmetry. now apply dec_stable.
  - intros (g & p & i & Hg & Ht & Hp & Hi & Hroot). unfold run.
    rewrite (getitem_Some _ _ _ Hg), bind_Ok_l, Ht. cbn [negb].
    rewrite (getitem_Some _ _ _ Hp), bind_Ok_l.
    rewrite (getitem_Some _ _ _ Hi), bind_Ok_l, Hroot, bind_Ok_l.
    now rewrite bool_decide_eq_false_2 by (intros Hne; now apply Hne).
  - intros g Hg Ht. unfold run.
    now rewrite (getitem_Some _ _ _ Hg), bind_Ok_l, Ht.
  - intros Hg. unfold run. now rewrite (getitem_None _ _ Hg).
Qed.

(** X7: the outcome of [run] depends on the proof only through
    [header['generation']], [body['proof_path']] and [body['proof_index']]:
    two proofs that agree on these three entries have the same outcome,
    whatever their status, uuid, provider or other entries are. *)
Theorem run_reads (self : machine) (target : bytes) (proof proof' : Proof) :
  proof_header proof !! "generation" = proof_header proof' !! "generation" ->
  proof_body proof !! "proof_path" = proof_body proof' !! "proof_path" ->
  proof_body proof !! "proof_index" = proof_body proof' !! "proof_index" ->
  run self target proof = run self target proof'.
Proof.
  intros Hg Hp Hi. unfold run, getitem. now rewrite Hg, Hp, Hi.
Qed.

Lemma run_set_status (self : machine) (target : bytes) (proof : Proof)
    (status : bool) :
  run self target (set_status proof status) = run self target proof.
Proof.
  unfold run, getitem, set_status. cbn [proof_header proof_body].
  now rewrite lookup_insert_ne by discriminate.
Qed.

Lemma set_status_twice (proof : Proof) (s s' : bool) :
  set_status (set_status proof s) s' = set_status proof s'.
Proof.
  unfold set_status. cbn [proof_header proof_body].
  now rewrite insert_insert_eq.
Qed.

(** X8: validating again a proof that has been validated gives the same
    result and leaves the proof as the first validation left it, provided
    that the validation parameters of a proof do not depend on its
    status: the status that [validateProof] writes is not read back. *)
Theorem validateProof_again (target : bytes) (proof proof' : Proof)
    (valid : bool) :
  (forall s, get_validation_params (set_status proof s)
             = get_validation_params proof) ->
  validateProof target proof = Ok (valid, proof') ->
  validateProof target proof' = Ok (valid, proof').
Proof.
  intros Hparams Hval. unfold validateProof in Hval.
  inv_bind Hval as config Hconfig. inv_bind Hval as validator Hinit.
  inv_bind Hval as b Hrun. injection Hval as <- <-.
  unfold validateProof.
  rewrite Hparams, Hconfig, bind_Ok_l, Hinit, bind_Ok_l.
  rewrite run_set_status, Hrun, bind_Ok_l. now rewrite set_status_twice.
Qed.

(** X9: [Validator.__init__] reads the four required keys and nothing
    else: two configurations that agree on them give the same validator
    or the same error, whatever other keys (such as [algorithm]) they
    hold. *)
Theorem Validator_init_reads (config config' : gmap string pyval) :
  (forall k, k ∈ required_keys -> config !! k = config' !! k) ->
  Validator_init config = Validator_init config'.
Proof.
  intros Hagree. unfold Validator_init, getitem.
  rewrite (Hagree "hash_type") by in_list.
  rewrite (Hagree "encoding") by in_list.
  rewrite (Hagree "raw_bytes") by in_list.
  rewrite (Hagree "security") by in_list.
  reflexivity.
Qed.

End ValidatorReads.

(** ** The three ways of constructing a receipt *)

Lemma arg_short (args : list pyval) (i : nat) :
  length args <= i -> arg args i = Raise (IndexError "tuple index out of range").
Proof. intros Hi. unfold arg. now rewrite lookup_ge_None_2. Qed.

Section ReceiptConstruction.
Context {RT : Runtime}.

(** X10: the order in which [Receipt.__init__] looks at its arguments.
    With a positional argument the keyword arguments are not read at all;
    without one, a truthy [from_dict] decides alone, whatever [from_json]
    and the other keywords are; and a receipt made from [from_dict] or
    from [from_json] draws no uuid and reads no clock. *)
Theorem Receipt_init_precedence :
  (forall a args kwargs kwargs' w,
     Receipt_init (a :: args) kwargs w = Receipt_init (a :: args) kwargs' w)
  /\ (forall kwargs d w,
       kwargs !! "from_dict" = Some d -> truthy d = true ->
       Receipt_init [] kwargs w = Receipt_init [] {["from_dict" := d]} w)
  /\ (forall kwargs w r w',
       truthy (dict_get kwargs "from_dict") = true
       \/ truthy (dict_get kwargs "from_json") = true ->
       Receipt_init [] kwargs w = Ok (r, w') -> w' = w).
Proof.
  split; [reflexivity|]. split.
  - intros kwargs d w Hd Ht.
    assert (Hs : ({["from_dict" := d]} : gmap string pyval) !! "from_dict"
                 = Some d) by apply lookup_singleton_eq.
    unfold Receipt_init.
    rewrite (dict_get_Some _ _ _ Hd), (dict_get_Some _ _ _ Hs), Ht.
    unfold getitem. now rewrite Hd, Hs.
  - intros kwargs w r w' Hreplica Hinit. unfold Receipt_init in Hinit.
    destruct (truthy (dict_get kwargs "from_dict")).
    + inv_bind Hinit as d Hd. inv_bind Hinit as h Hh. inv_bind Hinit as b Hb.
      now injection Hinit.
    + destruct Hreplica as [|Hjson]; [discriminate|]. rewrite Hjson in Hinit.
      inv_bind Hinit as j Hj. inv_bind Hinit as d Hd.
      inv_bind Hinit as h Hh. inv_bind Hinit as b Hb.
      now injection Hinit.
Qed.

(** X11: a falsy [from_dict] or [from_json] (an empty dictionary, an
    empty text, [None]) counts as absent: the receipt is then a new one,
    made from the keywords [proof_uuid], [proof_provider] and [result],
    and the construction fails with a [KeyError] on [proof_uuid] when this
    keyword is not given. *)
Theorem Receipt_init_falsy_source (kwargs : gmap string pyval) (w : World) :
  truthy (dict_get kwargs "from_dict") = false ->
  truthy (dict_get kwargs "from_json") = false ->
  Receipt_init [] kwargs w
  = Receipt_init [] (delete "from_dict" (delete "from_json" kwargs)) w
  /\ (kwargs !! "proof_uuid" = None ->
      Receipt_init [] kwargs w = Raise (KeyError "proof_uuid")).
Proof.
  intros Hd Hj. set (kwargs' := delete "from_dict" (delete "from_json" kwargs)).
  assert (Hd' : kwargs' !! "from_dict" = None) by apply lookup_delete_eq.
  assert (Hj' : kwargs' !! "from_json" = None).
  { unfold kwargs'. rewrite lookup_delete_ne by discriminate.
    apply lookup_delete_eq. }
  assert (Hother : forall k, k <> "from_dict" -> k <> "from_json" ->
            kwargs' !! k = kwargs !! k).
  { intros k H1 H2. unfold kwargs'.
    rewrite lookup_delete_ne by (intros E; now apply H1).
    now rewrite lookup_delete_ne by (intros E; now apply H2). }
  unfold Receipt_init. rewrite Hd, Hj.
  rewrite (dict_get_None _ _ Hd'), (dict_get_None _ _ Hj'). cbn [truthy].
  unfold getitem. rewrite !Hother by discriminate.
  split; [reflexivity|]. intros Hu. rewrite Hu.
  destruct (fresh_header w). reflexivity.
Qed.

(** X12: three positional arguments and the three keywords [proof_uuid],
    [proof_provider] and [result] construct the same receipt; further
    positional arguments are ignored, and fewer than three raise an
    [IndexError].  A receipt constructed from positional arguments has a
    new header: one uuid has been drawn, the clock read twice, and no file
    touched. *)
Theorem Receipt_init_positional :
  (forall pu pp res rest kwargs w,
     Receipt_init (pu :: pp :: res :: rest) kwargs w
     = Receipt_init []
         (<["proof_uuid" := pu]> (<["proof_provider" := pp]>
          (<["result" := res]> ∅))) w)
  /\ (forall args kwargs w r w',
       args <> [] ->
       Receipt_init args kwargs w = Ok (r, w') ->
       3 <= length args
       /\ header r = (fresh_header w).1
       /\ uuid_calls w' = S (uuid_calls w)
       /\ clock_reads w' = S (S (clock_reads w))
       /\ files w' = files w)
  /\ (forall args kwargs w,
       0 < length args -> length args < 3 ->
       Receipt_init args kwargs w
       = Raise (IndexError "tuple index out of range")).
Proof.
  split; [reflexivity|]. split.
  - intros args kwargs w r w' Hargs Hinit.
    destruct args as [|a [|b [|c rest]]]; [done|discriminate|discriminate|].
    cbn in Hinit. injection Hinit as <- <-. cbn. split; [lia|]. auto.
  - intros args kwargs w Hpos Hshort.
    destruct args as [|a [|b [|c rest]]]; cbn [length] in *;
      [lia|reflexivity|reflexivity|lia].
Qed.

End ReceiptConstruction.

(** ** The text of a receipt *)

Lemma Ok_inj {A} (a b : A) : Ok a = Ok b -> a = b.
Proof. now intros [= ->]. Qed.

Lemma append_inv_head (s a b : string) : s +:+ a = s +:+ b -> a = b.
Proof.
  induction s as [|c s IH]; [now rewrite !append_nil_l|].
  rewrite !append_cons. intros [= H]. now apply IH.
Qed.

Lemma repr_text_label (uuid timestamp validation_moment proof_uuid
    proof_provider : string) :
  repr_text uuid timestamp validation_moment proof_uuid proof_provider "VALID"
  <> repr_text uuid timestamp validation_moment proof_uuid proof_provider
       "NON VALID".
Proof.
  unfold repr_text. cbv zeta. intros H.
  repeat (apply append_inv_head in H).
  rewrite !append_cons in H. discriminate H.
Qed.

Lemma Receipt_repr_format (r : Receipt) (u t m pu pp res : pyval)
    (su st sm spu spp : string) :
  header r = receipt_header u t m ->
  body r = receipt_body pu pp res ->
  py_str u = Some su -> py_str t = Some st -> py_str m = Some sm ->
  py_str pu = Some spu -> py_str pp = Some spp ->
  Receipt_repr r
  = Ok (repr_text su st sm spu spp
          (if truthy res then "VALID" else "NON VALID")).
Proof.
  intros Hh Hb Hu Ht Hm Hpu Hpp. unfold Receipt_repr. rewrite Hh, Hb.
  change (subscript (receipt_header u t m) "uuid") with (Ok u : result pyval).
  change (subscript (receipt_header u t m) "timestamp")
    with (Ok t : result pyval).
  change (subscript (receipt_header u t m) "validation_moment")
    with (Ok m : result pyval).
  change (subscript (receipt_body pu pp res) "proof_uuid")
    with (Ok pu : result pyval).
  change (subscript (receipt_body pu pp res) "proof_provider")
    with (Ok pp : result pyval).
  change (subscript (receipt_body pu pp res) "result")
    with (Ok res : result pyval).
  rewrite !bind_Ok_l. unfold format_field.
  now rewrite Hu, Ht, Hm, Hpu, Hpp.
Qed.

(** X13: [Receipt.__repr__] gives a text for every receipt of the receipt
    format whose fields are texts, numbers, booleans or [None], and the
    text tells valid from non valid by the truth value of [result] alone:
    two such receipts with the same other fields have the same text
    exactly when their results are both truthy or both falsy. *)
Theorem Receipt_repr_result (u t m pu pp res res' : pyval) :
  is_Some (py_str u) -> is_Some (py_str t) -> is_Some (py_str m) ->
  is_Some (py_str pu) -> is_Some (py_str pp) ->
  let r := {| header := receipt_header u t m;
              body := receipt_body pu pp res |} in
  let r' := {| header := receipt_header u t m;
               body := receipt_body pu pp res' |} in
  (exists text, Receipt_repr r = Ok text)
  /\ (Receipt_repr r = Receipt_repr r' <-> truthy res = truthy res').
Proof.
  intros [su Hu] [st Ht] [sm Hm] [spu Hpu] [spp Hpp] r r'.
  rewrite (Receipt_repr_format r u t m pu pp res su st sm spu spp)
    by (reflexivity || assumption).
  rewrite (Receipt_repr_format r' u t m pu pp res' su st sm spu spp)
    by (reflexivity || assumption).
  split; [eauto|]. split.
  - intros H. apply Ok_inj in H.
    pose proof (repr_text_label su st sm spu spp) as Hne.
    destruct (truthy res), (truthy res'); try reflexivity; exfalso;
      [apply Hne | apply Hne; symmetry]; exact H.
  - now intros ->.
Qed.

(** ** What a validation leaves behind *)

Section ReceiptOfValidation.
Context {RT : Runtime} {HM : HashMachine}.

(** X14: whenever [validationReceipt] returns, for a [uuid] and a
    [provider] of any type, the receipt, the proof and the outside world
    are consistent: the [result] of the receipt is the boolean of
    [validateProof], which is also the status left in the header of the
    proof; the receipt carries the uuid and the provider of the proof under
    a new header; one uuid has been drawn and the clock read twice; and
    the only file that can have changed is [<uuid of the receipt>.json] in
    the directory given, a non-empty text. *)
Theorem validationReceipt_inv (target : bytes) (proof : Proof) (dirpath : pyval)
    (w : World) (receipt : Receipt) (proof' : Proof) (w' : World) :
  validationReceipt target proof dirpath w = Ok (receipt, proof', w') ->
  exists valid pu pp,
    validateProof target proof = Ok (valid, proof')
    /\ proof_header proof' !! "status" = Some (PBool valid)
    /\ proof_header proof' !! "uuid" = Some pu
    /\ proof_header proof' !! "provider" = Some pp
    /\ receipt = {| header := (fresh_header w).1;
                    body := receipt_body pu pp (PBool valid) |}
    /\ uuid_calls w' = S (uuid_calls w)
    /\ clock_reads w' = S (S (clock_reads w))
    /\ (truthy dirpath = false -> files w' = files w)
    /\ (forall path, files w' !! path <> files w !! path ->
        exists d, dirpath = PStr d /\ d <> ""
          /\ path = os_path_join d (uuid1_str (uuid_calls w) +:+ ".json")).
Proof.
  intros Hrec. unfold validationReceipt in Hrec.
  inv_bind Hrec as [valid p] Hval. cbn match in Hrec.
  inv_bind Hrec as pu Hpu. inv_bind Hrec as pp Hpp.
  rewrite Receipt_init_keywords, bind_Ok_l in Hrec. cbn match in Hrec.
  assert (Hstatus : proof_header p !! "status" = Some (PBool valid)).
  { unfold validateProof in Hval.
    inv_bind Hval as config Hconfig. inv_bind Hval as validator Hinit.
    inv_bind Hval as b Hrun. injection Hval as <- <-.
    apply lookup_insert_eq. }
  unfold getitem in Hpu, Hpp.
  destruct (proof_header p !! "uuid") as [pu'|] eqn:Hu; [|discriminate].
  injection Hpu as ->.
  destruct (proof_header p !! "provider") as [pp'|] eqn:Hp; [|discriminate].
  injection Hpp as ->.
  exists valid, pu, pp.
  destruct (truthy dirpath) eqn:Hdir.
  - change (subscript
              (header {| header := (fresh_header w).1;
                         body := receipt_body pu pp (PBool valid) |}) "uuid")
      with (Ok (PStr (uuid1_str (uuid_calls w))) : result pyval) in Hrec.
    rewrite bind_Ok_l in Hrec. cbn [py_str] in Hrec.
    rewrite bind_Ok_l in Hrec.
    destruct dirpath as [| | |d| | |];
      try (rewrite bind_Raise_l in Hrec; discriminate Hrec).
    rewrite bind_Ok_l in Hrec. inv_bind Hrec as w1 Hw.
    injection Hrec as <- <- <-.
    unfold write_json in Hw.
    destruct (open_w_error _); [discriminate|].
    inv_bind Hw as obj Hobj. inv_bind Hw as text Htext.
    injection Hw as <-. cbn [uuid_calls clock_reads files fresh_header snd].
    split; [exact Hval|]. split; [exact Hstatus|]. split; [exact Hu|].
    split; [exact Hp|]. do 3 (split; [reflexivity|]). split; [discriminate|].
    intros path Hpath. exists d. split; [reflexivity|]. split.
    + intros ->. discriminate Hdir.
    + destruct (decide (path = os_path_join d (uuid1_str (uuid_calls w) +:+ ".json")))
        as [->|Hne]; [reflexivity|].
      exfalso. apply Hpath. apply lookup_insert_ne.
      intros E. apply Hne. now symmetry.
  - injection Hrec as <- <- <-. cbn [uuid_calls clock_reads files fresh_header snd].
    split; [exact Hval|]. split; [exact Hstatus|]. split; [exact Hu|].
    split; [exact Hp|]. do 4 (split; [reflexivity|]).
    intros path Hpath. now exfalso.
Qed.

End ReceiptOfValidation.

(** ** Leaves and internal nodes *)

Section Separation.
Context {RT : Runtime} {CS : Constants}.

(** X15: when the two prefixes have the same length and differ, as the
    encodings of U+0000 and U+0001 do, the buffer that [hash_entry]
    digests for a record never is the buffer that [hash_pair] digests for
    two operands: a leaf cannot be passed off as an internal node.  (With
    security off both prefixes are empty and the buffers can coincide.) *)
Theorem leaf_node_separation (self : HashEngine) (data left right : bytes) :
  length (prefx00 self) = length (prefx01 self) ->
  prefx00 self <> prefx01 self ->
  hash_entry self (PBytes data) = consume self (prefx00 self ++ data)
  /\ hash_pair self left right = consume self (pair_buffer self left right)
  /\ prefx00 self ++ data <> pair_buffer self left right.
Proof.
  intros Hlen Hne. split; [reflexivity|]. split; [reflexivity|].
  unfold pair_buffer. intros Heq. apply Hne.
  now apply app_inj_1 in Heq as [? _].
Qed.

End Separation.

(** ** Receipts from JSON text *)

Section ReceiptFromJson.
Context {RT : Runtime}.

Lemma json_loads_empty (v : pyval) : json_loads "" <> Ok v.
Proof. vm_compute. discriminate. Qed.

(** X16: [Receipt(from_json=text)] decodes the text and takes what it
    finds under [header] and [body], without checking either; when the
    decoded value is truthy this is [Receipt(from_dict=...)] of the decoded
    value.  The two differ on a text that decodes to a falsy value: the
    text of an empty object raises the [KeyError] of [header], where an
    empty [from_dict] counts as absent. *)
Theorem Receipt_init_from_json (text : string) (v : pyval) (w : World) :
  json_loads text = Ok v ->
  Receipt_init [] {["from_json" := PStr text]} w
  = (header ← subscript v "header";
     body ← subscript v "body";
     Ok ({| header := header; body := body |}, w))
  /\ (truthy v = true ->
      Receipt_init [] {["from_json" := PStr text]} w
      = Receipt_init [] {["from_dict" := v]} w).
Proof.
  intros Hv.
  assert (Htext : truthy (PStr text) = true).
  { destruct text; [|reflexivity]. now destruct (json_loads_empty v). }
  set (kj := {["from_json" := PStr text]} : gmap string pyval).
  set (kd := {["from_dict" := v]} : gmap string pyval).
  assert (Hj1 : kj !! "from_dict" = None)
    by (apply lookup_singleton_ne; discriminate).
  assert (Hj2 : kj !! "from_json" = Some (PStr text))
    by apply lookup_singleton_eq.
  assert (Hd1 : kd !! "from_dict" = Some v) by apply lookup_singleton_eq.
  assert (Hjson : Receipt_init [] kj w
    = (header ← subscript v "header";
       body ← subscript v "body";
       Ok ({| header := header; body := body |}, w))).
  { unfold Receipt_init.
    rewrite (dict_get_None _ _ Hj1), (dict_get_Some _ _ _ Hj2), Htext.
    cbn [truthy]. unfold getitem. rewrite Hj2, bind_Ok_l, Hv, bind_Ok_l.
    reflexivity. }
  split; [exact Hjson|]. intros Ht. rewrite Hjson. unfold Receipt_init.
  rewrite (dict_get_Some _ _ _ Hd1), Ht. unfold getitem.
  now rewrite Hd1, bind_Ok_l.
Qed.

End ReceiptFromJson.

(** ** The errors of [validationReceipt] *)

Section ReceiptErrors.
Context {RT : Runtime} {HM : HashMachine}.

(** X17: the errors of [validationReceipt], in the order in which they
    can occur: an error of [validateProof] propagates; after the
    validation, a header without [uuid], then one without [provider], is a
    [KeyError] naming the key; and a truthy [dirpath] that is not a text
    is a [TypeError]. *)
Theorem validationReceipt_errors (target : bytes) (proof : Proof)
    (dirpath : pyval) (w : World) :
  (forall e, validateProof target proof = Raise e ->
     validationReceipt target proof dirpath w = Raise e)
  /\ (forall valid proof',
       validateProof target proof = Ok (valid, proof') ->
       (proof_header proof' !! "uuid" = None ->
          validationReceipt target proof dirpath w = Raise (KeyError "uuid"))
       /\ (forall pu, proof_header proof' !! "uuid" = Some pu ->
           proof_header proof' !! "provider" = None ->
           validationReceipt target proof dirpath w
           = Raise (KeyError "provider"))
       /\ (forall pu pp, proof_header proof' !! "uuid" = Some pu ->
           proof_header proof' !! "provider" = Some pp ->
           truthy dirpath = true -> (forall d, dirpath <> PStr d) ->
           exists msg,
             validationReceipt target proof dirpath w = Raise (TypeError msg))).
Proof.
  split.
  - intros e He. unfold validationReceipt. now rewrite He.
  - intros valid proof' Hval. split; [|split].
    + intros Hu. unfold validationReceipt. rewrite Hval, bind_Ok_l. cbn match.
      now rewrite (getitem_None _ _ Hu).
    + intros pu Hu Hp. unfold validationReceipt.
      rewrite Hval, bind_Ok_l. cbn match.
      now rewrite (getitem_Some _ _ _ Hu), bind_Ok_l, (getitem_None _ _ Hp).
    + intros pu pp Hu Hp Hdir Hd. unfold validationReceipt.
      rewrite Hval, bind_Ok_l. cbn match.
      rewrite (getitem_Some _ _ _ Hu), bind_Ok_l.
      rewrite (getitem_Some _ _ _ Hp), bind_Ok_l.
      rewrite Receipt_init_keywords, bind_Ok_l. cbn match. rewrite Hdir.
      change (subscript
                (header {| header := (fresh_header w).1;
                           body := receipt_body pu pp (PBool valid) |}) "uuid")
        with (Ok (PStr (uuid1_str (uuid_calls w))) : result pyval).
      rewrite bind_Ok_l. cbn [py_str]. rewrite bind_Ok_l.
      destruct dirpath as [| | |d| | |];
        try (rewrite bind_Raise_l; eexists; reflexivity).
      now destruct (Hd d).
Qed.

End ReceiptErrors.

(** ** The further properties on concrete inputs *)

Section FurtherExamples.
#[local] Existing Instance Sample.runtime.
#[local] Existing Instance Sample.constants.
#[local] Existing Instance sample_machine.

(** X3 on the digests of the sample proof. *)
Lemma pair_buffer_unambiguous_witness :
  prefx01 utf_8_engine = [Byte.x01]
  /\ (Byte.x01 ∉ hash_a)
  /\ hash_pair utf_8_engine hash_a hash_b
     = consume utf_8_engine (pair_buffer utf_8_engine hash_a hash_b)
  /\ hash_a = hash_a /\ hash_b = hash_b.
Proof.
  assert (Hn : Byte.x01 ∉ hash_a).
  { apply (bool_decide_unpack _). vm_compute. exact I. }
  split; [reflexivity|]. split; [exact Hn|].
  exact (pair_buffer_unambiguous utf_8_engine Byte.x01 hash_a hash_b
           hash_a hash_b eq_refl Hn Hn eq_refl).
Defined.

(** X4 on the digest of the entry ["a"]. *)
Lemma consume_hex_bytes_witness :
  consume utf_8_engine (Byte.x00 :: bytes_of_string "a") = Ok hash_a
  /\ Forall (fun b => is_hex_byte b = true) hash_a
  /\ (Byte.x00 ∉ hash_a) /\ (Byte.x01 ∉ hash_a).
Proof.
  assert (H : consume utf_8_engine (Byte.x00 :: bytes_of_string "a") = Ok hash_a)
    by (vm_compute; reflexivity).
  split; [exact H|].
  exact (proj2 (consume_hex_bytes utf_8_engine _ hash_a sample_utf_8_ascii H)).
Defined.

(** X5 on the names ["SHA256"] and ["UTF-8"]. *)
Lemma validate_parameters_normal_form_witness :
  validate_parameters "SHA256" "UTF-8" = Ok ("sha256", "utf_8")
  /\ validate_parameters "sha256" "utf_8" = Ok ("sha256", "utf_8")
  /\ HashEngine_init "sha256" "utf_8" true = Ok utf_8_engine.
Proof.
  assert (H : validate_parameters "SHA256" "UTF-8" = Ok ("sha256", "utf_8"))
    by (vm_compute; reflexivity).
  destruct (validate_parameters_normal_form "SHA256" "UTF-8" "sha256" "utf_8" H)
    as (_ & _ & _ & _ & Hagain & Hinit).
  split; [exact H|]. split; [exact Hagain|].
  apply (Hinit true {| algorithm := "SHA256"; encoding := "utf_8";
                       security := true;
                       prefx00 := [Byte.x00]; prefx01 := [Byte.x01] |}).
  vm_compute. reflexivity.
Defined.

(** X6 on the sample proof and on the proof of a failed generation. *)
Lemma run_accepts_witness :
  run sample_validator hash_ab sample_proof = Ok tt
  /\ run sample_validator hash_ab failed_proof = Raise InvalidMerkleProof.
Proof.
  split.
  - apply (proj1 (run_accepts sample_validator hash_ab sample_proof)).
    eexists _, _, _. repeat split; vm_compute; reflexivity.
  - apply (proj1 (proj2 (run_accepts sample_validator hash_ab failed_proof))
             (PBool false)); reflexivity.
Defined.

(** X7 on the sample proof, before and after a status is written. *)
Lemma run_reads_witness :
  run sample_validator hash_ab sample_proof
  = run sample_validator hash_ab (set_status sample_proof false).
Proof.
  apply run_reads; vm_compute; reflexivity.
Defined.

(** X8 on the sample proof. *)
Lemma validateProof_again_witness :
  validateProof hash_ab sample_proof = Ok (true, set_status sample_proof true)
  /\ validateProof hash_ab (set_status sample_proof true)
     = Ok (true, set_status sample_proof true).
Proof.
  assert (H : validateProof hash_ab sample_proof
              = Ok (true, set_status sample_proof true))
    by (vm_compute; reflexivity).
  split; [exact H|].
  apply (validateProof_again hash_ab sample_proof); [|exact H].
  intros s. vm_compute. reflexivity.
Defined.

(** X9: a key [algorithm] changes nothing. *)
Lemma Validator_init_reads_witness :
  Validator_init (<["algorithm" := PStr "md5"]> config_without_algorithm)
  = Validator_init config_without_algorithm.
Proof.
  apply Validator_init_reads. intros k Hk. apply lookup_insert_ne.
  intros <-. apply list_elem_of_In in Hk. cbn in Hk. intuition discriminate.
Defined.

(** X10: with both sources given, [from_dict] decides. *)
Lemma Receipt_init_precedence_witness :
  Receipt_init []
    (<["from_json" := PStr "not JSON"]>
       {["from_dict" := receipt_document sample_receipt]}) world0
  = Receipt_init [] {["from_dict" := receipt_document sample_receipt]} world0.
Proof.
  apply (proj1 (proj2 Receipt_init_precedence)); vm_compute; reflexivity.
Defined.

(** X11: [Receipt(from_dict={})]. *)
Lemma Receipt_init_falsy_source_witness :
  Receipt_init [] {["from_dict" := PDict ∅]} world0
  = Raise (KeyError "proof_uuid").
Proof.
  apply (Receipt_init_falsy_source {["from_dict" := PDict ∅]} world0);
    vm_compute; reflexivity.
Defined.

(** X12: two positional arguments are not enough. *)
Lemma Receipt_init_positional_witness :
  Receipt_init [PStr "0ac1d7f2-ee8a-11ee-a506-0242ac120002"; PBool true] ∅ world0
  = Raise (IndexError "tuple index out of range").
Proof.
  apply (proj2 (proj2 Receipt_init_positional)); cbn [length]; lia.
Defined.

(** X13: a receipt whose result is a non-empty text reads as valid. *)
Lemma Receipt_repr_result_witness :
  Receipt_repr sample_receipt
  = Receipt_repr {| header := header sample_receipt;
                    body := receipt_body
                              (PStr "0ac1d7f2-ee8a-11ee-a506-0242ac120002")
                              (PStr "f4c3b00c-ee89-11ee-a506-0242ac120002")
                              (PStr "no") |}.
Proof.
  refine (proj2 (proj2 (Receipt_repr_result
           (PStr "6fa459ea-ee8a-11ee-a506-000000000000") (PInt 1700000000)
           (PStr "Tue Nov 14 22:13:21 2023")
           (PStr "0ac1d7f2-ee8a-11ee-a506-0242ac120002")
           (PStr "f4c3b00c-ee89-11ee-a506-0242ac120002")
           (PBool true) (PStr "no") _ _ _ _ _)) eq_refl);
    eexists; reflexivity.
Defined.

(** X15 with the codec [utf_16], whose prefixes have four bytes. *)
Lemma leaf_node_separation_witness :
  prefx00 utf_16_engine ++ hash_a <> pair_buffer utf_16_engine hash_a hash_b.
Proof.
  refine (proj2 (proj2 (leaf_node_separation utf_16_engine hash_a hash_a hash_b
                          eq_refl _))).
  discriminate.
Defined.

(** X16 on the text of the sample receipt. *)
Lemma Receipt_init_from_json_witness :
  Receipt_init []
    {["from_json" := PStr (json_encode 0 (receipt_document sample_receipt))]}
    world0
  = Receipt_init [] {["from_dict" := receipt_document sample_receipt]} world0.
Proof.
  refine (proj2 (Receipt_init_from_json
                   (json_encode 0 (receipt_document sample_receipt))
                   (receipt_document sample_receipt) world0 _) _);
    vm_compute; reflexivity.
Defined.

(** X14 on the sample proof, with the directory [receipts]. *)
Lemma validationReceipt_inv_witness :
  exists valid pu pp,
    validateProof hash_ab sample_proof = Ok (valid, set_status sample_proof true)
    /\ proof_header (set_status sample_proof true) !! "status"
       = Some (PBool valid)
    /\ body sample_receipt = receipt_body pu pp (PBool valid).
Proof.
  assert (H : validationReceipt hash_ab sample_proof (PStr "receipts") world0
    = Ok (sample_receipt, set_status sample_proof true,
          {| uuid_calls := 1; clock_reads := 2;
             files :=
               <["receipts/6fa459ea-ee8a-11ee-a506-000000000000.json" :=
                   json_encode 0 (receipt_document sample_receipt)]> ∅ |}))
    by (vm_compute; reflexivity).
  destruct (validationReceipt_inv _ _ _ _ _ _ _ H)
    as (valid & pu & pp & Hval & Hst & _ & _ & Hr & _).
  exists valid, pu, pp. split; [exact Hval|]. split; [exact Hst|].
  exact (f_equal body Hr).
Defined.

(** X17: an integer as directory. *)
Lemma validationReceipt_errors_witness :
  exists msg,
    validationReceipt hash_ab sample_proof (PInt 1) world0
    = Raise (TypeError msg).
Proof.
  assert (H : validateProof hash_ab sample_proof
              = Ok (true, set_status sample_proof true))
    by (vm_compute; reflexivity).
  destruct (validationReceipt_errors hash_ab sample_proof (PInt 1) world0)
    as [_ Herr].
  destruct (Herr true (set_status sample_proof true) H) as (_ & _ & Htype).
  apply (Htype (PStr "0ac1d7f2-ee8a-11ee-a506-0242ac120002")
               (PStr "f4c3b00c-ee89-11ee-a506-0242ac120002"));
    try (vm_compute; reflexivity).
  intros d. discriminate.
Defined.

End FurtherExamples.
